(** * Frieda: column type resolution and the generic query runtime

    A shallow embedding of
    - the settings-aware column parser ([getFieldCastType],
      [getFieldJavascriptType], [getParenthesizedArgs],
      [getFieldKnownMySQLType], [hasColumnCommentAnnotation],
      [parseFieldDefinition]),
    - the annotation-driven [Field] class of [lib/acli/field.ts], and
    - the runtime classes [BaseDb] and [ModelDb] of [lib/api/db-classes.ts].

    JavaScript strings are modelled as [string], a sequence of code units
    below 256.  Regular expressions of the source are compiled by hand into
    structurally recursive matchers; each matcher quotes its expression. *)

From Stdlib Require Import String Ascii NArith ZArith Bool List Lia.
From stdpp Require Import gmap strings list.

Open Scope string_scope.

(** ** Code units and the character classes of the regular expressions *)

Module Js.

(** [\s] (and the set stripped by [String.prototype.trim]) restricted to code
    units below 256: TAB, LF, VT, FF, CR, SPACE and NBSP. *)
Definition is_space (c : ascii) : bool :=
  let n := N_of_ascii c in
  ((9 <=? n) && (n <=? 13) || (n =? 32) || (n =? 160))%N.

(** Line terminators, the code units [.] refuses: LF and CR. *)
Definition is_line_terminator (c : ascii) : bool :=
  let n := N_of_ascii c in ((n =? 10) || (n =? 13))%N.

(** [\w]: ASCII letters, digits and underscore. *)
Definition is_word (c : ascii) : bool :=
  let n := N_of_ascii c in
  ((48 <=? n) && (n <=? 57) || (65 <=? n) && (n <=? 90)
   || (97 <=? n) && (n <=? 122) || (n =? 95))%N.

(** ASCII lower-casing.  Under the [i] flag (without [u]) a pattern letter
    of the ASCII range matches exactly its two ASCII cases. *)
Definition to_lower (c : ascii) : ascii :=
  let n := N_of_ascii c in
  if ((65 <=? n) && (n <=? 90))%N then ascii_of_N (n + 32) else c.

Definition eq_ci (c p : ascii) : bool := Ascii.eqb (to_lower c) (to_lower p).

Fixpoint toLowerCase (s : string) : string :=
  match s with
  | EmptyString => EmptyString
  | String c s' => String (to_lower c) (toLowerCase s')
  end.

(** [starts_with_ci pat s]: the literal [pat] matched case-insensitively at
    the head of [s]; yields the matched text and the rest. *)
Fixpoint starts_with_ci (pat s : string) : option (string * string) :=
  match pat with
  | EmptyString => Some (EmptyString, s)
  | String p pat' =>
      match s with
      | EmptyString => None
      | String c s' =>
          if eq_ci c p then
            match starts_with_ci pat' s' with
            | Some (m, rest) => Some (String c m, rest)
            | None => None
            end
          else None
      end
  end.

(** A code unit that [new RegExp] reads as itself, also under the [i] flag:
    an ASCII code unit that is none of the syntax characters of an
    expression (backslash, caret, dollar, dot, bar, question mark, star,
    plus, parentheses, brackets and braces). *)
Definition literal_in_pattern (c : ascii) : bool :=
  (N_of_ascii c <? 128)%N
  && negb (existsb (Ascii.eqb c) (list_ascii_of_string "\^$.|?+*()[]{}")).

(** A text without expression syntax: interpolated into an expression, it
    matches as [starts_with_ci] matches it. *)
Fixpoint plain_pattern (s : string) : bool :=
  match s with
  | EmptyString => true
  | String c s' => literal_in_pattern c && plain_pattern s'
  end.

Definition head (s : string) : option ascii :=
  match s with EmptyString => None | String c _ => Some c end.

Definition is_empty (s : string) : bool :=
  match s with EmptyString => true | _ => false end.

Fixpoint last_of (prev : option ascii) (s : string) : option ascii :=
  match s with
  | EmptyString => prev
  | String c s' => last_of (Some c) s'
  end.

Definition opt_word (c : option ascii) : bool :=
  match c with Some c => is_word c | None => false end.

(** [\b] between the code unit before and the code unit after a position. *)
Definition word_boundary (prev next : option ascii) : bool :=
  xorb (opt_word prev) (opt_word next).

(** [(\s|$)] looking at the rest of the input. *)
Definition space_or_end (s : string) : bool :=
  match s with EmptyString => true | String c _ => is_space c end.

Fixpoint ltrim (s : string) : string :=
  match s with
  | EmptyString => EmptyString
  | String c s' => if is_space c then ltrim s' else s
  end.

Fixpoint rtrim (s : string) : string :=
  match s with
  | EmptyString => EmptyString
  | String c s' =>
      let r := rtrim s' in
      if is_space c && is_empty r then EmptyString else String c r
  end.

(** [String.prototype.trim]. *)
Definition trim (s : string) : string := rtrim (ltrim s).

(** [s.split(',')]: never empty, one more piece than there are commas. *)
Fixpoint split_comma (s : string) : list string :=
  match s with
  | EmptyString => [EmptyString]
  | String c s' =>
      match split_comma s' with
      | piece :: rest =>
          if Ascii.eqb c "," then EmptyString :: piece :: rest
          else String c piece :: rest
      | [] => [String c EmptyString]
      end
  end.

(** [pieces.join(sep)]. *)
Fixpoint join (sep : string) (pieces : list string) : string :=
  match pieces with
  | [] => EmptyString
  | [p] => p
  | p :: rest => p +:+ sep +:+ join sep rest
  end.

End Js.

(** ** Shared vocabulary of the two resolvers *)

(** The cast kinds.  ['enum'] is produced by [getFieldCastType] only. *)
Inductive CastType : Type :=
  | CT_json | CT_bigint | CT_boolean | CT_int | CT_float | CT_date
  | CT_set | CT_enum | CT_string.

#[global] Instance CastType_eq_dec : EqDecision CastType.
Proof. solve_decision. Defined.

(** A row of [SHOW FULL COLUMNS].  [Default] is a string, [null]
    ([Some None]) or absent ([None]). *)
Record ColumnRow : Type := mkColumn {
  Field_ : string;
  Type_ : string;
  Null_ : string;
  Key_ : string;
  Default_ : option (option string);
  Extra_ : string;
  Comment_ : string
}.

Definition DEFAULT_JSON_FIELD_TYPE : string := "unknown".

(** ** Helpers of the parser shared by both resolvers *)

Module Utils.
Import Js.

(** The tail of [getParenthesizedArgs]'s expression after the opening
    parenthesis, [(.* )\)(\s|$)]: the greedy group ends at the last closing
    parenthesis of the line that is followed by white space or the end. *)
Fixpoint group_until_close (r : string) : option string :=
  match r with
  | EmptyString => None
  | String c r' =>
      if is_line_terminator c then None
      else
        match group_until_close r' with
        | Some g => Some (String c g)
        | None =>
            if Ascii.eqb c ")" && space_or_end r' then Some EmptyString
            else None
        end
  end.

(** [prefix\s*\((.* )\)(\s|$)] matched at the head of [s]. *)
Definition args_here (prefix s : string) : option string :=
  match starts_with_ci prefix s with
  | Some (_, rest) =>
      match ltrim rest with
      | String c r => if Ascii.eqb c "(" then group_until_close r else None
      | EmptyString => None
      end
  | None => None
  end.

(** The positions reached through the [\s] alternative of [(\s|^)]. *)
Fixpoint args_scan (prefix s : string) : option string :=
  match s with
  | EmptyString => None
  | String c s' =>
      match (if is_space c then args_here prefix s' else None) with
      | Some g => Some g
      | None => args_scan prefix s'
      end
  end.

(** [getParenthesizedArgs(source, prefix)], expression
    [(\s|^)prefix\s*\((.* )\)(\s|$)] with flag [i]; the second group of the
    leftmost match, or the empty string.  A start at offset 0 tries the [\s]
    alternative before [^].

    The source interpolates [prefix] into the expression; here it is matched
    as literal text.  The two agree for a prefix of ASCII code units that
    holds no expression syntax ([Js.plain_pattern]), which is what
    the callers pass: a type name or [@] and a directive name.  Outside of
    that domain (a prefix such as [(a)], whose parentheses would be a group
    of the expression) this definition does not speak for the source. *)
Definition getParenthesizedArgs (source prefix : string) : string :=
  let at0 :=
    match source with
    | String c s' => if is_space c then args_here prefix s' else None
    | EmptyString => None
    end in
  match at0 with
  | Some g => g
  | None =>
      match args_here prefix source with
      | Some g => g
      | None =>
          match source with
          | String _ s' =>
              match args_scan prefix s' with Some g => g | None => "" end
          | EmptyString => ""
          end
      end
  end.

(** The alternatives of [\b(c1|c2|...)\b] tried in order at a position whose
    previous code unit is [prev]: the first one that matches and ends at a
    word boundary.  The alternatives are literal type names. *)
Fixpoint first_alternative (choices : list string) (prev : option ascii)
  (s : string) : option string :=
  match choices with
  | [] => None
  | ch :: rest =>
      match starts_with_ci ch s with
      | Some (m, tl) =>
          if word_boundary (last_of prev m) (head tl) then Some m
          else first_alternative rest prev s
      | None => first_alternative rest prev s
      end
  end.

(** The text of the first match of [\b(c1|c2|...)\b] (flags [gi]): the
    element [0] of [getMatchAmong(source, choices)] and of
    [source.match(rx)]. *)
Fixpoint first_match (choices : list string) (prev : option ascii)
  (s : string) : option string :=
  let here :=
    if word_boundary prev (head s) then first_alternative choices prev s
    else None in
  match here with
  | Some m => Some m
  | None =>
      match s with
      | EmptyString => None
      | String c s' => first_match choices (Some c) s'
      end
  end.

(** [hasColumnCommentAnnotation]'s expression after [(\s|^)]:
    [@annotation(\s|\(|$)]. *)
Definition annotation_here (annotation s : string) : bool :=
  match starts_with_ci (String "@" annotation) s with
  | Some (_, rest) =>
      match rest with
      | EmptyString => true
      | String c _ => is_space c || Ascii.eqb c "("
      end
  | None => false
  end.

Fixpoint annotation_scan (annotation s : string) : bool :=
  match s with
  | EmptyString => false
  | String c s' =>
      (is_space c && annotation_here annotation s')
      || annotation_scan annotation s'
  end.

End Utils.

(** Modelled from the spec: [KNOWN_MYSQL_TYPES] and [MYSQL_TYPES]
    ([lib/api/constants.ts] and [lib/acli/types.ts] are not among the
    sources).  The recognised type names of the resolver's decision order,
    used where a concrete vocabulary is needed. *)
Definition SPEC_TYPES : list string :=
  ["tinyint"; "int"; "integer"; "smallint"; "mediumint"; "bigint"; "year";
   "float"; "double"; "real"; "decimal"; "numeric"; "date"; "datetime";
   "timestamp"; "json"; "set"; "enum"].

Definition column_of (type comment : string) : ColumnRow :=
  mkColumn "c" type "NO" "" None "" comment.

(** ** The descriptors of [lib/api/types.ts] *)

Module Api.

Record FieldDefinition : Type := mkFieldDefinition {
  fieldName : string;
  columnName : string;
  columnType : string;
  columnComment : string;
  columnDefault : option (option string);
  columnExtra : string;
  columnKey : string;
  columnNull : string;
  knownMySQLType : option string;
  castType : CastType;
  javascriptType : string;
  isPrimaryKey : bool;
  isAutoIncrement : bool;
  isAlwaysGenerated : bool;
  isDefaultGenerated : bool;
  isInvisible : bool;
  isNullable : bool;
  isUnique : bool;
  hasDefault : bool;
  isOmittableInModel : bool;
  isOmittedFromCreateData : bool;
  isOptionalInCreateData : bool;
  isOmittedFromUpdateData : bool
}.

Record ModelDefinition : Type := mkModelDefinition {
  modelName : string;
  tableName : string;
  fields : list FieldDefinition
}.

End Api.

(** ** What a directive in a comment is *)

(** A directive [@kind] as the settings-aware parser recognises it: written
    in any case, at the start of the comment or after white space, and
    followed by white space, an opening parenthesis or the end. *)
Definition followed_ok (post : string) : Prop :=
  post = "" \/
  exists c p, post = String c p /\ (Js.is_space c = true \/ c = "("%char).

Definition preceded_ok (pre : string) : Prop :=
  pre = "" \/ exists p c, pre = p +:+ String c "" /\ Js.is_space c = true.

Definition directive_present (kind comment : string) : Prop :=
  exists pre m post,
    comment = pre +:+ String "@" (m +:+ post)
    /\ Js.toLowerCase m = Js.toLowerCase kind
    /\ preceded_ok pre /\ followed_ok post.

(** ** The settings-aware parser *)

Module Parse.
Import Js Utils.

(** [Partial<FullSettings>]: an unset option is [None]. *)
Record Settings : Type := mkSettings {
  typeBigIntAsString : option bool;
  typeTinyIntOneAsBoolean : option bool
}.

Definition defaultSettings : Settings := mkSettings None None.

(** [hasColumnCommentAnnotation(annotation, col)]: the expression
    [(\s|^)@annotation(\s|\(|$)] with flag [i], tested on the comment.

    The source interpolates [annotation] into the expression; here it is
    matched as literal text.  The two agree for a name that holds no
    expression syntax ([Js.plain_pattern]), which is what [getFieldCastType]
    and [getFieldJavascriptType] pass ([bigint] and [json]).  For other names (such as [js.n], whose dot would match any code unit) this
    definition does not speak for the source. *)
Definition hasColumnCommentAnnotation (annotation : string) (col : ColumnRow)
  : bool :=
  annotation_here annotation (Comment_ col)
  || annotation_scan annotation (Comment_ col).

Definition includes (l : list string) (x : string) : bool :=
  existsb (String.eqb x) l.

(** [getFieldCastType(col, knownMySQLType, settings)]. *)
Definition getFieldCastType (col : ColumnRow) (knownMySQLType : option string)
  (settings : Settings) : CastType :=
  match knownMySQLType with
  | None => CT_string
  | Some t =>
      if is_empty t then CT_string
      else if String.eqb "json" t then CT_json
      else if String.eqb "bigint" t then
        match typeBigIntAsString settings with
        | Some false => CT_bigint
        | _ =>
            if hasColumnCommentAnnotation "bigint" col then CT_bigint
            else CT_string
        end
      else if String.eqb t "tinyint"
              && String.eqb (trim (getParenthesizedArgs (Type_ col) t)) "1"
      then
        match typeTinyIntOneAsBoolean settings with
        | Some false => CT_int
        | _ => CT_boolean
        end
      else if includes ["tinyint"; "int"; "integer"; "smallint"; "mediumint"] t
      then CT_int
      else if includes ["float"; "double"; "real"; "decimal"; "numeric"] t
      then CT_float
      else if includes ["date"; "datetime"; "timestamp"] t then CT_date
      else if String.eqb t "set" then CT_set
      else if String.eqb t "enum" then CT_enum
      else if String.eqb t "year" then CT_int
      else CT_string
  end.

(** The width argument of a [tinyint] declaration, as the parser reads it. *)
Definition width_is_one (col : ColumnRow) : bool :=
  String.eqb (trim (getParenthesizedArgs (Type_ col) "tinyint")) "1".

(** The [.split(',').map(trim).filter(nonempty).join('|')] pipeline. *)
Definition literal_union (args : string) : string :=
  join "|"
    (List.filter (fun s => negb (is_empty s)) (List.map trim (split_comma args))).

(** [getFieldJavascriptType(col, castType)]. *)
Definition getFieldJavascriptType (col : ColumnRow) (castType : CastType)
  : string :=
  match castType with
  | CT_json =>
      if hasColumnCommentAnnotation "json" col
      then getParenthesizedArgs (Comment_ col) "@json"
      else DEFAULT_JSON_FIELD_TYPE
  | CT_set =>
      let strings := literal_union (getParenthesizedArgs (Type_ col) "set") in
      if is_empty strings then "Set<string>" else "Set<" +:+ strings +:+ ">"
  | CT_enum =>
      let strings := literal_union (getParenthesizedArgs (Type_ col) "enum") in
      if is_empty strings then "string" else strings
  | CT_bigint => "bigint"
  | CT_date => "Date"
  | CT_boolean => "boolean"
  | CT_int | CT_float => "number"
  | CT_string => "string"
  end.

Section KnownTypes.

(** [KNOWN_MYSQL_TYPES] lives in [lib/api/constants.ts]; the parser is
    verified for every vocabulary. *)
Variable KNOWN_MYSQL_TYPES : list string.

(** [getFieldKnownMySQLType(column)]: the first match, lower-cased. *)
Definition getFieldKnownMySQLType (column : ColumnRow) : option string :=
  match first_match KNOWN_MYSQL_TYPES None (Type_ column) with
  | Some m => Some (toLowerCase m)
  | None => None
  end.

(** [_.camelCase] of lodash. *)
Variable camelCase : string -> string.

(** [/\bword\b/i.test(s)] for a literal [word] or a list of alternatives. *)
Definition test_word (words : list string) (s : string) : bool :=
  match first_match words None s with Some _ => true | None => false end.

(** [parseFieldDefinition(column, settings)]. *)
Definition parseFieldDefinition (column : ColumnRow) (settings : Settings)
  : Api.FieldDefinition :=
  let fieldName := camelCase (Field_ column) in
  let knownMySQLType := getFieldKnownMySQLType column in
  let castType := getFieldCastType column knownMySQLType settings in
  let javascriptType := getFieldJavascriptType column castType in
  let isPrimaryKey := String.eqb (Key_ column) "PRI" in
  let isAutoIncrement := test_word ["auto_increment"] (Extra_ column) in
  let isUnique := String.eqb (Key_ column) "UNI" in
  let isAlwaysGenerated :=
    test_word ["VIRTUAL GENERATED"; "STORED GENERATED"] (Extra_ column) in
  let isDefaultGenerated := test_word ["DEFAULT_GENERATED"] (Extra_ column) in
  let isInvisible := test_word ["INVISIBLE"] (Extra_ column) in
  let isNullable := String.eqb (Null_ column) "YES" in
  let hasDefault :=
    match Default_ column with
    | Some (Some _) => true
    | Some None => isNullable
    | None => false
    end in
  Api.mkFieldDefinition
    fieldName (Field_ column) (Type_ column) (Comment_ column)
    (Default_ column) (Extra_ column) (Key_ column) (Null_ column)
    knownMySQLType castType javascriptType
    isPrimaryKey isAutoIncrement isAlwaysGenerated isDefaultGenerated
    isInvisible isNullable isUnique hasDefault
    isInvisible isAlwaysGenerated (isAutoIncrement || hasDefault)
    (isPrimaryKey || isAlwaysGenerated).

End KnownTypes.

End Parse.

(** ** The annotation-driven [Field] class *)

Module Acli.
Import Js.

(** [ParsedAnnotation]: [typeArgument] is [undefined] ([None]) when the
    directive has no parenthesized argument. *)
Record ParsedAnnotation : Type := mkAnnotation {
  fullAnnotation : string;
  annotation : string;
  typeArgument : option string
}.

(** [(.* )\)] after an opening parenthesis: the greedy group ends at the last
    closing parenthesis of the line; yields the group and what follows. *)
Fixpoint group_until_last_paren (r : string) : option (string * string) :=
  match r with
  | EmptyString => None
  | String c r' =>
      if is_line_terminator c then None
      else
        match group_until_last_paren r' with
        | Some (g, rest) => Some (String c g, rest)
        | None => if Ascii.eqb c ")" then Some (EmptyString, r') else None
        end
  end.

(** The alternation [(bigint|enum|set|json)] under flag [i]. *)
Fixpoint kind_alternatives (kinds : list string) (s : string)
  : option (string * string) :=
  match kinds with
  | [] => None
  | k :: rest =>
      match starts_with_ci k s with
      | Some r => Some r
      | None => kind_alternatives rest s
      end
  end.

(** [@(bigint|enum|set|json)(?:\((.* )\))?] at the head of [s]: the kind as
    written, the argument and the unconsumed rest. *)
Definition directive_here (s : string)
  : option (string * option string * string) :=
  match s with
  | String c s1 =>
      if Ascii.eqb c "@" then
        match kind_alternatives ["bigint"; "enum"; "set"; "json"] s1 with
        | Some (k, rest) =>
            match rest with
            | String p r =>
                if Ascii.eqb p "(" then
                  match group_until_last_paren r with
                  | Some (g, rest') => Some (k, Some g, rest')
                  | None => Some (k, None, rest)
                  end
                else Some (k, None, rest)
            | EmptyString => Some (k, None, rest)
            end
        | None => None
        end
      else None
  | EmptyString => None
  end.

(** One attempt of the whole expression at a start position: [^] (only at
    offset 0) before [\s+]. *)
Definition match_here (at_start : bool) (s : string)
  : option (string * option string * string) :=
  match (if at_start then directive_here s else None) with
  | Some r => Some r
  | None =>
      match s with
      | String c _ => if is_space c then directive_here (ltrim s) else None
      | EmptyString => None
      end
  end.

Definition take (n : nat) (s : string) : string := String.substring 0 n s.

(** [Array.from(comment.matchAll(rx))]: [skip] counts the code units still
    covered by the previous match. *)
Fixpoint matchAll (skip : nat) (at_start : bool) (s : string)
  : list ParsedAnnotation :=
  match s with
  | EmptyString => []
  | String _ s' =>
      match skip with
      | S k => matchAll k false s'
      | O =>
          match match_here at_start s with
          | Some (k, arg, rest) =>
              let len := (String.length s - String.length rest)%nat in
              mkAnnotation (trim (take len s)) (toLowerCase k) arg
              :: matchAll (len - 1) false s'
          | None => matchAll 0 false s'
          end
      end
  end.

Definition literal_union (args : string) : string :=
  join "|"
    (List.filter (fun s => negb (is_empty s)) (List.map trim (split_comma args))).

Section Field.

(** [MYSQL_TYPES] (of [acli/types.ts]) and [getParenthesizedArgs] (of
    [acli/utils.ts]) are imported by the class; it is verified for every
    vocabulary and every such helper. *)
Variable MYSQL_TYPES : list string.
Variable getParenthesizedArgs : string -> string -> string.

Variable column : ColumnRow.

Definition mysqlBaseType : option string :=
  match Utils.first_match MYSQL_TYPES None (Type_ column) with
  | Some m => Some (toLowerCase m)
  | None => None
  end.

(** Expression [/(?:^|\s+)@(bigint|enum|set|json)(?:\((.* )\))?/gi]. *)
Definition typeAnnotations : list ParsedAnnotation :=
  matchAll 0 true (Comment_ column).

Definition find_annotation (kind : string) : option ParsedAnnotation :=
  List.find (fun a => String.eqb (annotation a) kind) typeAnnotations.

Definition bigIntAnnotation : option ParsedAnnotation :=
  find_annotation "bigint".

Definition setAnnotation : option ParsedAnnotation := find_annotation "set".

(** A type argument that is neither [undefined], empty nor blank. *)
Definition usable_argument (a : ParsedAnnotation) : option string :=
  match typeArgument a with
  | Some arg =>
      if is_empty arg || is_empty (trim arg) then None else Some arg
  | None => None
  end.

Definition require_argument (a : option ParsedAnnotation)
  : option ParsedAnnotation :=
  match a with
  | Some a => match usable_argument a with Some _ => Some a | None => None end
  | None => None
  end.

Definition enumAnnotation : option ParsedAnnotation :=
  require_argument (find_annotation "enum").

Definition jsonAnnotation : option ParsedAnnotation :=
  require_argument (find_annotation "json").

Definition base_is (t : string) : bool :=
  match mysqlBaseType with Some b => String.eqb t b | None => false end.

Definition isTinyIntOne : bool :=
  base_is "tinyint"
  && String.eqb (trim (getParenthesizedArgs (Type_ column) "tinyint")) "1".

Definition castType : CastType :=
  if base_is "json" then CT_json
  else if base_is "bigint" then
    match bigIntAnnotation with Some _ => CT_bigint | None => CT_string end
  else if isTinyIntOne then CT_boolean
  else if base_is "bool" || base_is "boolean" then CT_boolean
  else if base_is "set" then
    match setAnnotation with Some _ => CT_set | None => CT_string end
  else if base_is "enum" then CT_string
  else if base_is "tinyint" || base_is "int" || base_is "integer"
          || base_is "smallint" || base_is "mediumint" || base_is "year"
  then CT_int
  else if base_is "float" || base_is "double" || base_is "decimal"
          || base_is "numeric" || base_is "real"
  then CT_float
  else if base_is "date" || base_is "datetime" || base_is "timestamp"
  then CT_date
  else CT_string.

Definition argument_text (a : ParsedAnnotation) : string :=
  match typeArgument a with Some arg => arg | None => "" end.

Definition javascriptType : string :=
  match castType with
  | CT_json =>
      match jsonAnnotation with
      | Some a => trim (argument_text a)
      | None => DEFAULT_JSON_FIELD_TYPE
      end
  | CT_set =>
      match require_argument setAnnotation with
      | Some a => "Set<" +:+ trim (argument_text a) +:+ ">"
      | None =>
          let strings :=
            literal_union (getParenthesizedArgs (Type_ column) "set") in
          if is_empty strings then "Set<string>"
          else "Set<" +:+ strings +:+ ">"
      end
  | ct =>
      if base_is "enum" then
        match enumAnnotation with
        | Some a => argument_text a
        | None =>
            let strings :=
              literal_union (getParenthesizedArgs (Type_ column) "enum") in
            if is_empty strings then "string" else strings
        end
      else
        match ct with
        | CT_bigint => "bigint"
        | CT_boolean => "boolean"
        | CT_date => "Date"
        | CT_float | CT_int => "number"
        | _ => "string"
        end
  end.

(** [camelcase] of the package of that name. *)
Variable camelcase : string -> string.

(** The remaining getters of the class. *)
Definition columnName : string := Field_ column.
Definition fieldName : string := camelcase columnName.
Definition isPrimaryKey : bool := String.eqb (Key_ column) "PRI".
Definition isAutoIncrement : bool :=
  Parse.test_word ["auto_increment"] (Extra_ column).
Definition isUnique : bool := String.eqb (Key_ column) "UNI".
Definition isNullable : bool := String.eqb (Null_ column) "YES".

Definition hasDefault : bool :=
  match Default_ column with
  | Some (Some _) => true
  | Some None => isNullable
  | None => false
  end.

(** [defaultValue]: [undefined] is [None]. *)
Definition defaultValue : option (option string) :=
  if hasDefault then Default_ column else None.

Definition isGeneratedAlways : bool :=
  Parse.test_word ["VIRTUAL GENERATED"; "STORED GENERATED"] (Extra_ column).

Definition isInvisible : bool := Parse.test_word ["INVISIBLE"] (Extra_ column).

End Field.

End Acli.

(** ** The runtime classes of [lib/api/db-classes.ts] *)

Module Db.

(** JavaScript values that travel through the runtime.  [VNumber z] is the
    Number nearest to the integer [z]; [VOther] stands for any other object. *)
Inductive JsVal : Type :=
  | VUndefined
  | VNull
  | VBool (b : bool)
  | VNumber (z : Z)
  | VString (s : string)
  | VBigInt (z : Z)
  | VSet (members : list string)
  | VOther (tag : nat).

(** [sql-template-tag]: a statement is raw text interleaved with bound
    values; the transport receives its [sql] text and [values] together. *)
Inductive SqlPart : Type :=
  | Raw (text : string)
  | Bound (v : JsVal).

Definition Sql : Type := list SqlPart.

Definition raw (text : string) : Sql := [Raw text].
Definition empty : Sql := [].

(** [join(parts, separator)]. *)
Fixpoint join (parts : list Sql) (separator : string) : Sql :=
  match parts with
  | [] => []
  | [p] => p
  | p :: rest => (p ++ Raw separator :: join rest separator)%list
  end.

(** What a [throw] carries: an [Error] with its message, or another value. *)
Inductive Thrown : Type :=
  | ErrorObj (message : string)
  | ThrownValue (v : JsVal).

(** [class ExecuteError extends Error]. *)
Record ExecuteError : Type := mkExecuteError {
  message : string;
  originalError : Thrown;
  query : Sql
}.

(** [new ExecuteError(originalError, query)]. *)
Definition newExecuteError (originalError : Thrown) (query : Sql)
  : ExecuteError :=
  mkExecuteError
    (match originalError with
     | ErrorObj m => m
     | ThrownValue _ => "unkown error"
     end)
    originalError query.

(** An object with string keys; an absent key reads as [undefined]. *)
Definition get (o : gmap string JsVal) (k : string) : JsVal :=
  match o !! k with Some v => v | None => VUndefined end.

(** [keys.reduce((acc, k) => ({...acc, [k]: data[k]}), {})]. *)
Definition pick_keys (data : gmap string JsVal) (names : list string)
  : gmap string JsVal :=
  foldl (fun (acc : gmap string JsVal) k => <[ k := get data k ]> acc) ∅ names.

(** [ExecutedQuery] of the driver, as far as the classes read it. *)
Record ExecutedQuery : Type := mkExecutedQuery {
  rows : list (gmap string JsVal);
  insertId : JsVal
}.

Definition CustomModelCast : Type := list (string * CastType).

Record OneBasedPagingInput : Type := mkPaging { page : Z; rpp : Z }.

(** [ModelSelectColumnsInput]: omitted, ['all'], or an array of names. *)
Inductive SelectInput : Type :=
  | SelectOmitted
  | SelectAll
  | SelectNames (names : list string).

(** [Number.MAX_SAFE_INTEGER]. *)
Definition MAX_SAFE_INTEGER : Z := 9007199254740991.

Section Runtime.

(** The world outside: the database behind the connection, the clock and
    whatever the logging hooks write to. *)
Variable World : Type.

(** [connOrTx.execute(sql, values, {as: 'object', cast})]; the cast function
    is [createCastFunction(schema.cast, customModelCast)], of
    [lib/api/create-cast-function.ts], taken to return. *)
Variable conn_execute :
  Sql -> option CustomModelCast -> World -> World * (Thrown + ExecutedQuery).

(** [Date.now()]. *)
Variable now : World -> Z.

(** [DbLoggingOptions]: both hooks are optional and, like any function,
    may throw. *)
Record DbLoggingOptions : Type := mkLoggingOptions {
  performanceLoggerOption :
    option (ExecutedQuery -> Z -> World -> World * option Thrown);
  errorLoggerOption :
    option (ExecuteError -> World -> World * option Thrown)
}.

(** The helpers of [lib/api/sql-utils.ts]. *)
Variable WhereInput OrderByInput : Type.
Variable bt : list string -> Sql.
Variable getWhere : option WhereInput -> string -> Thrown + Sql.
Variable getOrderBy : option OrderByInput -> string -> Thrown + Sql.
Variable getLimitOffset : option OneBasedPagingInput -> Thrown + Sql.

(** [JSON.stringify]. *)
Variable JSON_stringify : JsVal -> Thrown + JsVal.

(** [v > BigInt(Number.MAX_SAFE_INTEGER)] and [Number(v)] for an operand
    that is not a bigint. *)
Variable gt_max_safe_other : JsVal -> bool.
Variable Number_other : JsVal -> JsVal.

(** *** The monad of the asynchronous methods

    The state is the world together with the statements handed to the
    transport so far (a ghost log); a method returns or throws. *)
Record Env : Type := mkEnv { world : World; sent : list Sql }.

Definition M (A : Type) : Type := Env -> Env * (Thrown + A).

Definition ret {A} (a : A) : M A := fun e => (e, inr a).
Definition throw {A} (t : Thrown) : M A := fun e => (e, inl t).
Definition bind {A B} (m : M A) (f : A -> M B) : M B :=
  fun e => match m e with
           | (e', inr a) => f a e'
           | (e', inl t) => (e', inl t)
           end.
Definition lift {A} (r : Thrown + A) : M A := fun e => (e, r).

Notation "'let*' x ':=' m 'in' k" := (bind m (fun x => k))
  (at level 10, x name, m at level 100, k at level 200).

(** [try { body } catch (error) { handler(error) }]. *)
Definition try_catch {A} (body : M A) (handler : Thrown -> M A) : M A :=
  fun e => match body e with
           | (e', inr a) => (e', inr a)
           | (e', inl t) => handler t e'
           end.

(** A call of an external function that may change the world or throw. *)
Definition call_hook (h : World -> World * option Thrown) : M unit :=
  fun e => match h (world e) with
           | (w, None) => (mkEnv w (sent e), inr tt)
           | (w, Some t) => (mkEnv w (sent e), inl t)
           end.

Definition call_transport (q : Sql) (cast : option CustomModelCast)
  : M ExecutedQuery :=
  fun e => match conn_execute q cast (world e) with
           | (w, r) => (mkEnv w (q :: sent e), r)
           end.

Definition read_clock : M Z := fun e => (e, inr (now (world e))).

(** *** [class BaseDb] *)

Section Instance.

Variable loggingOptions : DbLoggingOptions.

(** The getters fall back to a no-op. *)
Definition performanceLogger (r : ExecutedQuery) (ms : Z)
  : World -> World * option Thrown :=
  match performanceLoggerOption loggingOptions with
  | Some f => f r ms
  | None => fun w => (w, None)
  end.

Definition errorLogger (err : ExecuteError) : World -> World * option Thrown :=
  match errorLoggerOption loggingOptions with
  | Some f => f err
  | None => fun w => (w, None)
  end.

(** [BaseDb.execute(query, customModelCast)]. *)
Definition execute (query : Sql) (customModelCast : option CustomModelCast)
  : M ExecutedQuery :=
  try_catch
    (let* start := read_clock in
     let* result := call_transport query customModelCast in
     let* finish := read_clock in
     let* _ := call_hook (performanceLogger result (finish - start)) in
     ret result)
    (fun error =>
       let* _ := call_hook (errorLogger (newExecuteError error query)) in
       throw (ErrorObj "Internal server error.")).

(** [BaseDb.executeSelect]. *)
Definition executeSelect (query : Sql)
  (customModelCast : option CustomModelCast)
  : M (ExecutedQuery * list (gmap string JsVal)) :=
  let* executedQuery := execute query customModelCast in
  ret (executedQuery, rows executedQuery).

(** *** [class ModelDb] *)

Variable model : Api.ModelDefinition.

(** What [join] of [sql-template-tag] does with an empty array; [create]
    guards its calls against it, [findMany] and [updateWhere] do not. *)
Variable join_of_nothing : Thrown + Sql.

Definition join_array (parts : list Sql) : Thrown + Sql :=
  match parts with
  | [] => join_of_nothing
  | _ => inr (join parts ",")
  end.

Definition tableName : string := Api.tableName model.
Definition fields : list Api.FieldDefinition := Api.fields model.
Definition keys : list string := List.map Api.fieldName fields.

Definition primaryKeys : list string :=
  List.map Api.fieldName (List.filter Api.isPrimaryKey fields).

Definition is_cast (ct : CastType) (f : Api.FieldDefinition) : bool :=
  bool_decide (Api.castType f = ct).

Definition jsonKeys : list string :=
  List.map Api.fieldName (List.filter (is_cast CT_json) fields).

Definition setKeys : list string :=
  List.map Api.fieldName (List.filter (is_cast CT_set) fields).

Definition autoIncrementingPrimaryKey : option string :=
  match List.find Api.isAutoIncrement fields with
  | Some field => Some (Api.fieldName field)
  | None => None
  end.

Definition includes (l : list string) (k : string) : bool :=
  existsb (String.eqb k) l.

(** The statements, as their template literals spell them.  The literal of
    [findMany] runs over eight lines: each line but the last ends in a space
    and a line feed, and each line is indented by eight spaces. *)
Definition next_line : string := String "010"%char "        ".

Definition selectQuery (select where_ orderBy limit : Sql) : Sql :=
  (Raw (next_line +:+ "SELECT " +:+ next_line) :: select
   ++ Raw (" " +:+ next_line +:+ "FROM " +:+ next_line) :: bt [tableName]
   ++ Raw (" " +:+ next_line) :: where_
   ++ Raw (" " +:+ next_line) :: orderBy
   ++ Raw (" " +:+ next_line) :: limit)%list.

Definition countQuery (where_ : Sql) : Sql :=
  (Raw "SELECT COUNT(*) AS `ct` FROM " :: bt [tableName]
   ++ Raw " " :: where_)%list.

Definition insertQuery (names insertValues : list Sql) : Sql :=
  let namesSql := join names "," in
  let valuseSql := join insertValues "," in
  (Raw "INSERT INTO " :: bt [tableName] ++ Raw " (" :: namesSql
   ++ Raw ") VALUES (" :: valuseSql ++ [Raw ")"])%list.

(** A name that no field of the model bears. *)
Definition unknown_field (name : string) : Prop :=
  forall f, In f fields -> Api.fieldName f <> name.

Definition invalid_select (fieldName : string) : Thrown :=
  ErrorObj ("Invalid select: the field named " +:+ fieldName
            +:+ " does not exist.").

(** [getSelectForFieldName] inside [findMany]. *)
Definition getSelectForFieldName (fieldName : string) : Thrown + Sql :=
  match List.find (fun f => String.eqb (Api.fieldName f) fieldName) fields with
  | None => inl (invalid_select fieldName)
  | Some field =>
      inr (bt [tableName; Api.columnName field] ++ Raw " as "
           :: bt [Api.fieldName field])%list
  end.

(** [names.map(f)] for an [f] that may throw: stops at the first throw. *)
Fixpoint map_throwing {A B} (f : A -> Thrown + B) (l : list A)
  : Thrown + list B :=
  match l with
  | [] => inr []
  | a :: l' =>
      match f a with
      | inl t => inl t
      | inr b =>
          match map_throwing f l' with
          | inl t => inl t
          | inr bs => inr (b :: bs)
          end
      end
  end.

(** The [select] expression of [findMany]: a non-empty array of names, the
    literal ['all'], or anything else.  Both arrays go through [join]; only
    the one of ['all'] can be empty, on a model without fields. *)
Definition selectColumns (select : SelectInput) : Thrown + Sql :=
  match select with
  | SelectNames (n :: ns) =>
      match map_throwing getSelectForFieldName (n :: ns) with
      | inl t => inl t
      | inr parts => join_array parts
      end
  | SelectAll =>
      match map_throwing getSelectForFieldName keys with
      | inl t => inl t
      | inr parts => join_array parts
      end
  | _ => inr (raw "*")
  end.

Record FindManyInput : Type := mkFindManyInput {
  fm_where : option WhereInput;
  fm_paging : option OneBasedPagingInput;
  fm_orderBy : option OrderByInput;
  fm_select : SelectInput
}.

(** [ModelDb.findMany(input)]. *)
Definition findMany (input : FindManyInput) : M (list (gmap string JsVal)) :=
  let* where_ := lift (getWhere (fm_where input) tableName) in
  let* orderBy := lift (getOrderBy (fm_orderBy input) tableName) in
  let* limit := lift (getLimitOffset (fm_paging input)) in
  let* select := lift (selectColumns (fm_select input)) in
  let query := selectQuery select where_ orderBy limit in
  let* r := executeSelect query None in
  ret (snd r).

(** [ModelDb.countBigInt(input)]. *)
Definition countBigInt (where_in : option WhereInput) : M JsVal :=
  let* where_ := lift (getWhere where_in tableName) in
  let query := countQuery where_ in
  let* result := executeSelect query (Some [("ct", CT_bigint)]) in
  ret (match snd result with
       | row :: _ => get row "ct"
       | [] => VBigInt 0
       end).

(** [ModelDb.count(input)]. *)
Definition count (where_in : option WhereInput) : M JsVal :=
  let* ct := countBigInt where_in in
  if (match ct with
      | VBigInt z => (MAX_SAFE_INTEGER <? z)%Z
      | v => gt_max_safe_other v
      end)
  then throw (ErrorObj
                "count returned a number greater than Number.MAX_SAFE_INTEGER")
  else ret (match ct with
            | VBigInt z => VNumber z
            | v => Number_other v
            end).

(** The value bound for one key of [data] in [create]. *)
Definition insertValue (k : string) (v : JsVal) : Thrown + Sql :=
  match v with
  | VNull => inr (raw "NULL")
  | _ =>
      if includes jsonKeys k then
        match JSON_stringify v with
        | inl t => inl t
        | inr text => inr [Bound text]
        end
      else
        match v with
        | VSet members =>
            if includes setKeys k
            then inr [Bound (VString (Js.join "," members))]
            else inr [Bound v]
        | _ => inr [Bound v]
        end
  end.

(** [ModelDb.create(input)]; [data] lists the own properties of
    [input.data] in the order of [Object.keys]. *)
Definition create (data : list (string * JsVal)) : M (gmap string JsVal) :=
  let names := List.map (fun kv => bt [tableName; fst kv]) data in
  let* insertValues :=
    lift (map_throwing (fun kv => insertValue (fst kv) (snd kv)) data) in
  let query := insertQuery names insertValues in
  let* executedQuery := execute query None in
  match autoIncrementingPrimaryKey with
  | Some (String c name) =>
      ret ({[ String c name := insertId executedQuery ]} : gmap string JsVal)
  | _ => ret (pick_keys (list_to_map data) primaryKeys)
  end.

(** [BaseDb.executeSelectFirst]: [rows[0] || null]. *)
Definition executeSelectFirst (query : Sql)
  (customModelCast : option CustomModelCast)
  : M (option (gmap string JsVal)) :=
  let* r := executeSelect query customModelCast in
  ret (List.head (snd r)).

(** [BaseDb.executeSelectFirstOrThrow]. *)
Definition executeSelectFirstOrThrow (query : Sql)
  (customModelCast : option CustomModelCast) : M (gmap string JsVal) :=
  let* result := executeSelectFirst query customModelCast in
  match result with
  | None =>
      throw (ErrorObj "executeSelectFirstOrThrow failed to find a record.")
  | Some row => ret row
  end.

(** [ModelDb.findFirst(input)]: [{...input, paging: {page: 1, rpp: 1}}]. *)
Definition findFirst (input : FindManyInput)
  : M (option (gmap string JsVal)) :=
  let* rows :=
    findMany (mkFindManyInput (fm_where input) (Some (mkPaging 1 1))
                (fm_orderBy input) (fm_select input)) in
  ret (List.head rows).

(** [ModelDb.findFirstOrThrow(input)]. *)
Definition findFirstOrThrow (input : FindManyInput)
  : M (gmap string JsVal) :=
  let* result := findFirst input in
  match result with
  | None => throw (ErrorObj "findFirstOrThrow failed to find a record.")
  | Some row => ret row
  end.

(** [ModelDb.findUnique] and [ModelDb.findUniqueOrThrow]. *)
Definition findUnique (input : FindManyInput)
  : M (option (gmap string JsVal)) := findFirst input.

Definition findUniqueOrThrow (input : FindManyInput)
  : M (gmap string JsVal) := findFirstOrThrow input.

(** The assignment written for one key of [data] in [updateWhere]. *)
Definition updateAssignment (k : string) (v : JsVal) : Thrown + Sql :=
  match v with
  | VNull => inr (bt [tableName; k] ++ [Raw " = NULL"])%list
  | _ =>
      if includes jsonKeys k then
        match JSON_stringify v with
        | inl t => inl t
        | inr text => inr (bt [tableName; k] ++ [Raw " = "; Bound text])%list
        end
      else
        match v with
        | VSet members =>
            if includes setKeys k
            then inr (bt [tableName; k]
                      ++ [Raw " = "; Bound (VString (Js.join "," members))])%list
            else inr (bt [tableName; k] ++ [Raw " = "; Bound v])%list
        | _ => inr (bt [tableName; k] ++ [Raw " = "; Bound v])%list
        end
  end.

Definition updateQuery (updateSql where_ : Sql) : Sql :=
  (Raw "UPDATE " :: bt [tableName] ++ Raw " SET " :: updateSql
   ++ Raw " " :: where_)%list.

(** [ModelDb.updateWhere(input)]. *)
Definition updateWhere (data : list (string * JsVal))
  (where_in : option WhereInput) : M ExecutedQuery :=
  let* updates :=
    lift (map_throwing (fun kv => updateAssignment (fst kv) (snd kv)) data) in
  let* updateSql := lift (join_array updates) in
  let* where_ := lift (getWhere where_in tableName) in
  execute (updateQuery updateSql where_) None.

(** [ModelDb.update(input)]. *)
Definition update (data : list (string * JsVal))
  (where_in : option WhereInput) : M ExecutedQuery :=
  updateWhere data where_in.

Definition deleteQuery (where_ : Sql) : Sql :=
  (Raw "DELETE FROM " :: bt [tableName] ++ Raw " " :: where_)%list.

(** [ModelDb.deleteWhere(input)] and [ModelDb.delete(input)]. *)
Definition deleteWhere (where_in : option WhereInput) : M ExecutedQuery :=
  let* where_ := lift (getWhere where_in tableName) in
  execute (deleteQuery where_) None.

Definition delete (where_in : option WhereInput) : M ExecutedQuery :=
  deleteWhere where_in.

End Instance.

End Runtime.

(** The constructor of [ModelDb]: the first model of the schema that bears
    the name, or a throw. *)
Definition findModel (modelName : string) (models : list Api.ModelDefinition)
  : Thrown + Api.ModelDefinition :=
  match List.find (fun m => String.eqb (Api.modelName m) modelName) models with
  | Some model => inr model
  | None => inl (ErrorObj ("Model " +:+ modelName +:+ " not found in schema."))
  end.

(** The getters [sql] and [values] of a statement: the text with a question
    mark for each bound value, and the bound values in order. *)
Fixpoint sql_text (q : Sql) : string :=
  match q with
  | [] => ""
  | Raw text :: rest => text +:+ sql_text rest
  | Bound _ :: rest => "?" +:+ sql_text rest
  end.

Fixpoint sql_values (q : Sql) : list JsVal :=
  match q with
  | [] => []
  | Raw _ :: rest => sql_values rest
  | Bound v :: rest => v :: sql_values rest
  end.

(** A fragment that binds no value, as an identifier is. *)
Definition binds_nothing (q : Sql) : Prop := sql_values q = [].

End Db.

(** ** A small world for concrete runs *)

Module Sample.
Import Db.

(** The world counts the calls that reached the transport. *)
Definition conn_returning (r : ExecutedQuery)
  : Sql -> option CustomModelCast -> nat -> nat * (Thrown + ExecutedQuery) :=
  fun _ _ w => (S w, inr r).

Definition conn_throwing (t : Thrown)
  : Sql -> option CustomModelCast -> nat -> nat * (Thrown + ExecutedQuery) :=
  fun _ _ w => (S w, inl t).

Definition now (w : nat) : Z := Z.of_nat w.

Definition bt (names : list string) : Sql :=
  [Raw ("`" +:+ Js.join "`.`" names +:+ "`")].

Definition getWhere (_ : option unit) (_ : string) : Thrown + Sql := inr [].
Definition getOrderBy (_ : option unit) (_ : string) : Thrown + Sql := inr [].
Definition getLimitOffset (_ : option OneBasedPagingInput) : Thrown + Sql :=
  inr [].
Definition JSON_stringify (v : JsVal) : Thrown + JsVal := inr v.
Definition gt_max_safe_other (_ : JsVal) : bool := false.
Definition Number_other (v : JsVal) : JsVal := v.

Definition no_logging : DbLoggingOptions nat := mkLoggingOptions nat None None.

Definition field_of (name : string) (kind : CastType)
  (primary auto : bool) : Api.FieldDefinition :=
  Api.mkFieldDefinition name name "" "" None "" "" "NO" None kind ""
    primary auto false false false false false false false false auto primary.

(** A single auto-increment primary key [id]. *)
Definition user_model : Api.ModelDefinition :=
  Api.mkModelDefinition "User" "user"
    [field_of "id" CT_string true true; field_of "name" CT_string false false].

(** A composite primary key, nothing auto-incremented. *)
Definition membership_model : Api.ModelDefinition :=
  Api.mkModelDefinition "Membership" "membership"
    [field_of "a" CT_string true false; field_of "b" CT_string true false;
     field_of "note" CT_string false false].

(** An auto-increment column that is not part of the primary key. *)
Definition ticket_model : Api.ModelDefinition :=
  Api.mkModelDefinition "Ticket" "ticket"
    [field_of "code" CT_string true false; field_of "seq" CT_int false true].

(** An auto-increment primary key whose field name is the empty string, as
    [camelCase] yields for the column name [_]. *)
Definition underscore_model : Api.ModelDefinition :=
  Api.mkModelDefinition "Odd" "odd" [field_of "" CT_string true true].

(** A set field and a json field beside a plain one. *)
Definition shirt_model : Api.ModelDefinition :=
  Api.mkModelDefinition "TeeShirt" "tee_shirt"
    [field_of "id" CT_string true true; field_of "size" CT_set false false;
     field_of "pricing" CT_json false false;
     field_of "name" CT_string false false].

(** A [JSON.stringify] that spells a few values out and throws on the
    others, as the real one does on a cyclic object. *)
Definition stringify (v : JsVal) : Thrown + JsVal :=
  match v with
  | VNumber 7 => inr (VString "7")
  | VBool true => inr (VString "true")
  | VString "" => inr (VString (String "034"%char (String "034"%char "")))
  | _ => inl (ErrorObj "Converting circular structure to JSON")
  end.

Definition start : Env nat := mkEnv nat 0%nat [].

End Sample.

(** ** A world that keeps what the error hook receives *)

Module Recording.
Import Db.

(** The world is the list of the errors handed to the error hook so far,
    the latest first. *)
Definition World : Type := list ExecuteError.

Definition conn_returning (r : ExecutedQuery)
  : Sql -> option CustomModelCast -> World -> World * (Thrown + ExecutedQuery) :=
  fun _ _ w => (w, inr r).

Definition conn_throwing (t : Thrown)
  : Sql -> option CustomModelCast -> World -> World * (Thrown + ExecutedQuery) :=
  fun _ _ w => (w, inl t).

Definition now (_ : World) : Z := 0.

(** An error hook that keeps its argument. *)
Definition record_error (err : ExecuteError) : World -> World * option Thrown :=
  fun w => (err :: w, None).

(** A performance hook that throws. *)
Definition failing_performance (t : Thrown)
  : ExecutedQuery -> Z -> World -> World * option Thrown :=
  fun _ _ w => (w, Some t).

Definition recording : DbLoggingOptions World :=
  mkLoggingOptions World None (Some record_error).

Definition recording_after (t : Thrown) : DbLoggingOptions World :=
  mkLoggingOptions World (Some (failing_performance t)) (Some record_error).

Definition start : Env World := mkEnv World [] [].

End Recording.

(** ** The rest of the settings-aware parser *)

Module ParseModel.
Import Js Utils.

Record DatabaseTableInfo : Type := mkTable {
  name : string;
  columns : list ColumnRow
}.

(** [ModelDefinition] with every name [parseModelDefinition] derives. *)
Record ModelDefinition : Type := mkModel {
  modelName : string;
  tableName : string;
  modelPrimaryKeyTypeName : string;
  modelCreateDataTypeName : string;
  modelUpdateDataTypeName : string;
  modelFindUniqueParamsTypeName : string;
  modelRepoTypeName : string;
  classRepoName : string;
  modelDefinitionConstName : string;
  fields : list Api.FieldDefinition
}.

(** What the runtime classes read of it. *)
Definition runtime_model (def : ModelDefinition) : Api.ModelDefinition :=
  Api.mkModelDefinition (modelName def) (tableName def) (fields def).

Section Names.

Variable KNOWN_MYSQL_TYPES : list string.

(** [_.camelCase] and [_.upperFirst] of lodash. *)
Variable camelCase : string -> string.
Variable upperFirst : string -> string.

(** [parseModelDefinition(table, settings)]. *)
Definition parseModelDefinition (table : DatabaseTableInfo)
  (settings : Parse.Settings) : ModelDefinition :=
  let modelName := upperFirst (camelCase (name table)) in
  mkModel modelName (name table)
    (modelName +:+ "PrimaryKey")
    (modelName +:+ "CreateData")
    (modelName +:+ "UpdateData")
    (modelName +:+ "FindUniqueParams")
    (modelName +:+ "ModelRepo")
    (camelCase (name table))
    (camelCase (name table) +:+ "ModelDefinition")
    (List.map
       (fun col =>
          Parse.parseFieldDefinition KNOWN_MYSQL_TYPES camelCase col settings)
       (columns table)).

End Names.

Definition double_quote : ascii := "034"%char.
Definition single_quote : ascii := "'"%char.
Definition backslash : ascii := "\"%char.

(** The body and the closing quote of a literal opened by [q]: code units
    other than [q] and the backslash, or a backslash with the code unit
    after it, up to the first [q]. *)
Fixpoint literal_end (q : ascii) (s : string) : option (string * string) :=
  match s with
  | EmptyString => None
  | String c s' =>
      if Ascii.eqb c q then Some (String c EmptyString, s')
      else if Ascii.eqb c backslash then
        match s' with
        | EmptyString => None
        | String d s'' =>
            match literal_end q s'' with
            | Some (b, rest) => Some (String c (String d b), rest)
            | None => None
            end
        end
      else
        match literal_end q s' with
        | Some (b, rest) => Some (String c b, rest)
        | None => None
        end
  end.

(** One attempt of the expression of [getStringLiterals] at a position. *)
Definition literal_here (s : string) : option (string * string) :=
  match s with
  | String c s' =>
      if Ascii.eqb c double_quote || Ascii.eqb c single_quote then
        match literal_end c s' with
        | Some (b, rest) => Some (String c b, rest)
        | None => None
        end
      else None
  | EmptyString => None
  end.

Fixpoint literals_from (skip : nat) (s : string) : list string :=
  match s with
  | EmptyString => []
  | String _ s' =>
      match skip with
      | S k => literals_from k s'
      | O =>
          match literal_here s with
          | Some (m, _) => m :: literals_from (String.length m - 1) s'
          | None => literals_from 0 s'
          end
      end
  end.

(** [getStringLiterals(source)]: the quoted substrings, quotes included. *)
Definition getStringLiterals (source : string) : list string :=
  literals_from 0 source.

End ParseModel.

(** ** Predicates used to state properties *)

Module Pred.

(** Every code unit of the text passes the test. *)
Fixpoint all_chars (p : ascii -> bool) (s : string) : bool :=
  match s with
  | EmptyString => true
  | String c s' => p c && all_chars p s'
  end.

Definition not_line_terminator (c : ascii) : bool :=
  negb (Js.is_line_terminator c).

Definition not_at_sign (c : ascii) : bool := negb (Ascii.eqb c "@").

Definition is_null (v : Db.JsVal) : bool :=
  match v with Db.VNull => true | _ => false end.

(** The model has a field that bears the name and is cast as the kind. *)
Definition has_field_of_kind (model : Api.ModelDefinition) (kind : CastType)
  (k : string) : Prop :=
  exists f, In f (Api.fields model)
            /\ Api.fieldName f = k /\ Api.castType f = kind.

(** The four kinds of directive of the [Field] class. *)
Definition directive_kinds : list string := ["bigint"; "enum"; "set"; "json"].

(** What [join] of [sql-template-tag] throws for an empty array, for concrete
    runs. *)
Definition join_refuses : Db.Thrown + Db.Sql :=
  inl (Db.ErrorObj "Expected `join([])` to be called with an array of multiple elements, but got an empty array").

(** A step that leaves the world and the transport log as they are. *)
Definition quiet {World A} (m : Db.M World A) : Prop :=
  forall e, fst (m e) = e.

(** A step that hands at most one statement to the transport. *)
Definition at_most_one {World A} (m : Db.M World A) : Prop :=
  forall e, Db.sent World (fst (m e)) = Db.sent World e
            \/ exists q, Db.sent World (fst (m e)) = q :: Db.sent World e.

Definition not_found : Db.Thrown :=
  Db.ErrorObj "findFirstOrThrow failed to find a record.".

Definition internal_error : Db.Thrown := Db.ErrorObj "Internal server error.".

End Pred.

(** * Properties *)

(** ** Strings and matchers *)

Section StringFacts.
Import Js.

Lemma append_cons (c : ascii) (s t : string) :
  String c s +:+ t = String c (s +:+ t).
Proof. reflexivity. Qed.

Lemma append_nil (t : string) : "" +:+ t = t.
Proof. reflexivity. Qed.

Lemma append_empty_r (s : string) : s +:+ "" = s.
Proof.
  induction s as [|c s IH]; [reflexivity|]. now rewrite append_cons, IH.
Qed.

Lemma append_assoc (a b c : string) : (a +:+ b) +:+ c = a +:+ (b +:+ c).
Proof.
  induction a as [|x a IH]; [reflexivity|]. now rewrite !append_cons, IH.
Qed.

Lemma eq_ci_spec (c p : ascii) : eq_ci c p = true <-> to_lower c = to_lower p.
Proof. unfold eq_ci. apply Ascii.eqb_eq. Qed.

Lemma to_lower_at (c : ascii) : to_lower c = "@"%char -> c = "@"%char.
Proof.
  destruct c as [[] [] [] [] [] [] [] []]; vm_compute; intro H;
    first [reflexivity | discriminate H].
Qed.

Lemma starts_with_ci_spec (pat s m rest : string) :
  starts_with_ci pat s = Some (m, rest)
  <-> s = m +:+ rest /\ toLowerCase m = toLowerCase pat.
Proof.
  revert s m rest. induction pat as [|p pat IH]; intros s m rest; cbn.
  - split.
    + intros [= <- <-]. split; reflexivity.
    + intros [-> H]. destruct m; [reflexivity | discriminate H].
  - destruct s as [|c s].
    + split; [discriminate|].
      intros [H1 H2]. destruct m; cbn in *; discriminate.
    + destruct (eq_ci c p) eqn:E.
      * destruct (starts_with_ci pat s) as [[m' rest']|] eqn:Es.
        -- apply IH in Es as [-> Hl]. apply eq_ci_spec in E. split.
           ++ intros [= <- <-]. cbn. split; [reflexivity | congruence].
           ++ intros [H1 H2]. destruct m as [|x m]; cbn in *; [discriminate|].
              injection H1 as -> H1. injection H2 as _ H2.
              assert (Hs : starts_with_ci pat (m' +:+ rest') = Some (m, rest))
                by (apply IH; split; assumption).
              assert (Hs' : starts_with_ci pat (m' +:+ rest') = Some (m', rest'))
                by (apply IH; split; [reflexivity | assumption]).
              congruence.
        -- split; [discriminate|].
           intros [H1 H2]. destruct m as [|x m]; cbn in *; [discriminate|].
           injection H1 as -> H1. injection H2 as _ H2.
           assert (Hs : starts_with_ci pat s = Some (m, rest))
             by (apply IH; split; assumption).
           congruence.
      * split; [discriminate|].
        intros [H1 H2]. destruct m as [|x m]; cbn in *; [discriminate|].
        injection H1 as -> H1. injection H2 as H2 _.
        apply eq_ci_spec in H2. congruence.
Qed.

Lemma annotation_here_spec (kind s : string) :
  Utils.annotation_here kind s = true
  <-> exists m post, s = String "@" (m +:+ post)
        /\ toLowerCase m = toLowerCase kind /\ followed_ok post.
Proof.
  unfold Utils.annotation_here.
  destruct (starts_with_ci (String "@" kind) s) as [[m0 rest]|] eqn:E.
  - apply starts_with_ci_spec in E as [-> Hm].
    destruct m0 as [|c m]; [discriminate Hm|].
    cbn in Hm. injection Hm as Hc Hm. apply to_lower_at in Hc as ->.
    rewrite append_cons. split.
    + intros H. exists m, rest. repeat split; [assumption|].
      destruct rest as [|x r]; [now left|]. right. exists x, r.
      split; [reflexivity|].
      apply orb_true_iff in H as [H|H]; [now left|].
      right. now apply Ascii.eqb_eq in H.
    + intros (m' & post & Heq & Hm' & Hpost).
      injection Heq as Heq.
      assert (Hs : starts_with_ci kind (m +:+ rest) = Some (m, rest))
        by (apply starts_with_ci_spec; split; [reflexivity | assumption]).
      assert (Hs' : starts_with_ci kind (m +:+ rest) = Some (m', post))
        by (apply starts_with_ci_spec; split; assumption).
      rewrite Hs in Hs'. injection Hs' as <- <-.
      destruct Hpost as [-> | (x & r & -> & Hx)]; [reflexivity|].
      apply orb_true_iff. destruct Hx as [Hx | ->]; [now left | now right].
  - split; [discriminate|].
    intros (m & post & -> & Hm & _).
    assert (Hs : starts_with_ci (String "@" kind) (String "@" (m +:+ post))
                 = Some (String "@" m, post)).
    { apply starts_with_ci_spec. split; [reflexivity|]. cbn. now rewrite Hm. }
    congruence.
Qed.

Lemma annotation_scan_spec (kind s : string) :
  Utils.annotation_scan kind s = true
  <-> exists p c rest, s = p +:+ String c rest /\ is_space c = true
        /\ Utils.annotation_here kind rest = true.
Proof.
  induction s as [|x s IH]; cbn.
  - split; [discriminate|]. intros (p & c & rest & H & _).
    destruct p; discriminate H.
  - rewrite orb_true_iff, andb_true_iff, IH. split.
    + intros [[Hx Hh] | (p & c & rest & -> & Hc & Hh)].
      * exists "", x, s. repeat split; assumption.
      * exists (String x p), c, rest. repeat split; assumption.
    + intros (p & c & rest & Heq & Hc & Hh).
      destruct p as [|y p].
      * injection Heq as -> ->. now left.
      * rewrite append_cons in Heq. injection Heq as -> ->.
        right. exists p, c, rest. repeat split; assumption.
Qed.

(** The hand-compiled expression of [hasColumnCommentAnnotation] accepts
    exactly the comments that hold such a directive. *)
Lemma hasColumnCommentAnnotation_spec (kind : string) (col : ColumnRow) :
  Parse.hasColumnCommentAnnotation kind col = true
  <-> directive_present kind (Comment_ col).
Proof.
  unfold Parse.hasColumnCommentAnnotation, directive_present.
  rewrite orb_true_iff, annotation_scan_spec, annotation_here_spec. split.
  - intros [(m & post & -> & Hm & Hp) | (p & c & rest & -> & Hc & Hh)].
    + exists "", m, post. repeat split; [assumption | now left | assumption].
    + apply annotation_here_spec in Hh as (m & post & -> & Hm & Hp).
      exists (p +:+ String c ""), m, post.
      rewrite append_assoc. repeat split; [assumption | | assumption].
      right. exists p, c. split; [reflexivity | assumption].
  - intros (pre & m & post & -> & Hm & [-> | (p & c & -> & Hc)] & Hp).
    + left. exists m, post. repeat split; assumption.
    + right. exists p, c, (String "@" (m +:+ post)).
      rewrite append_assoc. repeat split; [assumption|].
      apply annotation_here_spec. exists m, post. repeat split; assumption.
Qed.

End StringFacts.

(** ** The settings-aware parser: cast kinds *)

Section ParseFacts.
Import Js Parse.

Variable KNOWN_MYSQL_TYPES : list string.
Variable camelCase : string -> string.

Local Abbreviation resolve :=
  (parseFieldDefinition KNOWN_MYSQL_TYPES camelCase).

Lemma castType_parse (col : ColumnRow) (settings : Settings) :
  Api.castType (resolve col settings)
  = getFieldCastType col (getFieldKnownMySQLType KNOWN_MYSQL_TYPES col) settings.
Proof. reflexivity. Qed.

Lemma javascriptType_parse (col : ColumnRow) (settings : Settings) :
  Api.javascriptType (resolve col settings)
  = getFieldJavascriptType col (Api.castType (resolve col settings)).
Proof. reflexivity. Qed.

(** The settings-aware parser resolves a column whose base type is bigint to
    the cast kind bigint exactly when [typeBigIntAsString] is [false] or the
    comment holds an [@bigint] directive; otherwise it resolves to string. *)
Lemma bigint_cast_kind_parse (col : ColumnRow) (settings : Settings) :
  getFieldKnownMySQLType KNOWN_MYSQL_TYPES col = Some "bigint" ->
  (Api.castType (resolve col settings) = CT_bigint
   <-> typeBigIntAsString settings = Some false
       \/ directive_present "bigint" (Comment_ col))
  /\ (~ (typeBigIntAsString settings = Some false
         \/ directive_present "bigint" (Comment_ col))
      -> Api.castType (resolve col settings) = CT_string).
Proof.
  intros Hk. rewrite castType_parse, Hk.
  rewrite <- hasColumnCommentAnnotation_spec. cbn.
  destruct (typeBigIntAsString settings) as [[]|];
    destruct (hasColumnCommentAnnotation "bigint" col);
    (split; [split; [intros H | intros [H|H]] | intros H]);
    try reflexivity; try discriminate; try (now right);
    try (now left); try (exfalso; apply H; now right);
    try (exfalso; apply H; now left).
Qed.

Lemma set_cast_kind_parse (col : ColumnRow) (settings : Settings) :
  getFieldKnownMySQLType KNOWN_MYSQL_TYPES col = Some "set" ->
  Api.castType (resolve col settings) = CT_set.
Proof. intros Hk. now rewrite castType_parse, Hk. Qed.

Lemma enum_cast_kind_parse (col : ColumnRow) (settings : Settings) :
  getFieldKnownMySQLType KNOWN_MYSQL_TYPES col = Some "enum" ->
  Api.castType (resolve col settings) = CT_enum.
Proof. intros Hk. now rewrite castType_parse, Hk. Qed.

(** C4, as the parser has it.  A tinyint column whose parenthesized width
    argument is exactly 1 resolves to boolean unless
    [typeTinyIntOneAsBoolean] is [false], when it resolves to int; every
    other tinyint column resolves to int whatever the flag. *)
Theorem C4_tinyint_width_one (col : ColumnRow) (settings : Settings) :
  getFieldKnownMySQLType KNOWN_MYSQL_TYPES col = Some "tinyint" ->
  (width_is_one col = true ->
   Api.castType (resolve col settings)
   = match typeTinyIntOneAsBoolean settings with
     | Some false => CT_int
     | _ => CT_boolean
     end)
  /\ (width_is_one col = false ->
      Api.castType (resolve col settings) = CT_int).
Proof.
  intros Hk. rewrite castType_parse, Hk. unfold width_is_one.
  split; intros Hw; cbn; rewrite Hw; reflexivity.
Qed.

End ParseFacts.

(** ** The [Field] class: cast kinds and types *)

Section FieldFacts.
Import Js Acli.

Variable MYSQL_TYPES : list string.
Variable getParenthesizedArgs : string -> string -> string.

Local Abbreviation castKind := (castType MYSQL_TYPES getParenthesizedArgs).
Local Abbreviation semanticType :=
  (javascriptType MYSQL_TYPES getParenthesizedArgs).

Lemma base_is_eq (col : ColumnRow) (b t : string) :
  mysqlBaseType MYSQL_TYPES col = Some b ->
  base_is MYSQL_TYPES col t = String.eqb t b.
Proof. intros H. unfold base_is. now rewrite H. Qed.

Ltac resolve_base H :=
  unfold javascriptType, castType, isTinyIntOne;
  rewrite ?(base_is_eq _ _ _ H); cbn.

(** The class knows no settings: a bigint column is cast as bigint exactly
    when a bigint annotation is parsed from its comment. *)
Lemma bigint_cast_kind_field (col : ColumnRow) :
  mysqlBaseType MYSQL_TYPES col = Some "bigint" ->
  (castKind col = CT_bigint <-> bigIntAnnotation col <> None)
  /\ (bigIntAnnotation col = None -> castKind col = CT_string).
Proof.
  intros Hb. resolve_base Hb.
  destruct (bigIntAnnotation col); split; try split; congruence.
Qed.

Lemma set_cast_kind_field (col : ColumnRow) :
  mysqlBaseType MYSQL_TYPES col = Some "set" ->
  (castKind col = CT_set <-> setAnnotation col <> None)
  /\ (setAnnotation col = None -> castKind col = CT_string).
Proof.
  intros Hb. resolve_base Hb.
  destruct (setAnnotation col); split; try split; congruence.
Qed.

Lemma set_type_field (col : ColumnRow) (a : ParsedAnnotation) :
  mysqlBaseType MYSQL_TYPES col = Some "set" ->
  setAnnotation col = Some a ->
  usable_argument a = None ->
  semanticType col
  = let strings :=
      literal_union (getParenthesizedArgs (Type_ col) "set") in
    if is_empty strings then "Set<string>" else "Set<" +:+ strings +:+ ">".
Proof.
  intros Hb Ha Hu. resolve_base Hb. rewrite Ha. cbn. now rewrite Hu.
Qed.

Lemma enum_cast_kind_field (col : ColumnRow) :
  mysqlBaseType MYSQL_TYPES col = Some "enum" -> castKind col = CT_string.
Proof. intros Hb. now resolve_base Hb. Qed.

(** The class never yields the cast kind enum. *)
Lemma castType_never_enum (col : ColumnRow) : castKind col <> CT_enum.
Proof.
  unfold castType.
  repeat match goal with
         | |- context [if ?b then _ else _] => destruct b
         | |- context [match ?o with Some _ => _ | None => _ end] => destruct o
         end; discriminate.
Qed.

(** A json or enum annotation without a usable argument is dropped by the
    getters. *)
Lemma require_argument_unusable (o : option ParsedAnnotation) :
  (forall a, o = Some a -> usable_argument a = None) ->
  require_argument o = None.
Proof.
  intros H. destruct o as [a|]; [|reflexivity].
  cbn. now rewrite (H a eq_refl).
Qed.

Lemma json_type_field_fallback (col : ColumnRow) :
  mysqlBaseType MYSQL_TYPES col = Some "json" ->
  (forall a, find_annotation col "json" = Some a -> usable_argument a = None) ->
  castKind col = CT_json /\ semanticType col = DEFAULT_JSON_FIELD_TYPE.
Proof.
  intros Hb Hu. split; resolve_base Hb; [reflexivity|].
  unfold jsonAnnotation. now rewrite require_argument_unusable.
Qed.

Lemma enum_type_field_fallback (col : ColumnRow) :
  mysqlBaseType MYSQL_TYPES col = Some "enum" ->
  (forall a, find_annotation col "enum" = Some a -> usable_argument a = None) ->
  castKind col = CT_string
  /\ semanticType col
     = let strings :=
         literal_union (getParenthesizedArgs (Type_ col) "enum") in
       if is_empty strings then "string" else strings.
Proof.
  intros Hb Hu. split; resolve_base Hb; [reflexivity|].
  unfold enumAnnotation. now rewrite require_argument_unusable.
Qed.

End FieldFacts.

(** ** Concrete columns *)

Section Columns.
Import Js.

Local Abbreviation parse :=
  (Parse.parseFieldDefinition SPEC_TYPES (fun s => s)).
Local Abbreviation field_cast :=
  (Acli.castType SPEC_TYPES Utils.getParenthesizedArgs).
Local Abbreviation field_type :=
  (Acli.javascriptType SPEC_TYPES Utils.getParenthesizedArgs).

Example bigint_cast_kind_parse_columns :
  Api.castType (parse (column_of "bigint unsigned" "@bigint")
                      Parse.defaultSettings) = CT_bigint
  /\ Api.castType (parse (column_of "bigint unsigned" "")
                         Parse.defaultSettings) = CT_string.
Proof.
  split.
  - apply (proj1 (bigint_cast_kind_parse SPEC_TYPES (fun s => s)
                    (column_of "bigint unsigned" "@bigint")
                    Parse.defaultSettings eq_refl)).
    right. apply hasColumnCommentAnnotation_spec. reflexivity.
  - apply (proj2 (bigint_cast_kind_parse SPEC_TYPES (fun s => s)
                    (column_of "bigint unsigned" "")
                    Parse.defaultSettings eq_refl)).
    intros [H | H]; [discriminate H|].
    apply hasColumnCommentAnnotation_spec in H. discriminate H.
Qed.

Ltac no_directive kind comment :=
  let H := fresh in
  intros H;
  apply (proj2 (hasColumnCommentAnnotation_spec kind (column_of "" comment)))
    in H;
  discriminate H.

Ltac has_directive kind comment :=
  apply (hasColumnCommentAnnotation_spec kind (column_of "" comment));
  reflexivity.

(** C1 on the [Field] class.  Two bigint columns that the class resolves
    against the claim and the settings-aware parser resolves as the claim
    says.  The comment [@bigints] holds no [@bigint] directive, yet the class
    casts the column as bigint: the expression of [typeAnnotations] asks for
    no boundary after the kind.  The comment [@json(a) @bigint(b)] holds the
    directive, yet the class casts the column as string: the greedy argument
    group of the json annotation swallows it.  And the class takes no
    settings: a column without a directive is cast as string where the
    parser, with [typeBigIntAsString] set to [false], casts it as bigint. *)
Theorem C1_field_bigint_directive :
  Acli.mysqlBaseType SPEC_TYPES (column_of "bigint" "@bigints") = Some "bigint"
  /\ ~ directive_present "bigint" "@bigints"
  /\ field_cast (column_of "bigint" "@bigints") = CT_bigint
  /\ Api.castType (parse (column_of "bigint" "@bigints") Parse.defaultSettings)
     = CT_string
  /\ directive_present "bigint" "@json(a) @bigint(b)"
  /\ field_cast (column_of "bigint" "@json(a) @bigint(b)") = CT_string
  /\ Api.castType (parse (column_of "bigint" "@json(a) @bigint(b)")
                         Parse.defaultSettings)
     = CT_bigint
  /\ field_cast (column_of "bigint" "") = CT_string
  /\ Api.castType (parse (column_of "bigint" "")
                         (Parse.mkSettings (Some false) None))
     = CT_bigint.
Proof.
  split; [reflexivity|]. split; [no_directive "bigint" "@bigints"|].
  split; [reflexivity|]. split; [reflexivity|].
  split; [has_directive "bigint" "@json(a) @bigint(b)"|].
  repeat split.
Qed.

(** C2 on the settings-aware parser.  A set column whose comment holds no
    directive is cast as set, where the claim, the [Field] class and the
    documentation have string.  With the bare directive both resolvers type
    the column as the set of the literals of its definition.  The class
    departs from the claim on other comments: [@settings] holds no [@set]
    directive and is cast as set, and in [@json(Foo) @set(x)] the directive
    is swallowed by the argument group of the json annotation. *)
Theorem C2_parser_set_without_directive :
  Parse.getFieldKnownMySQLType SPEC_TYPES (column_of "set('a','b')" "")
  = Some "set"
  /\ ~ directive_present "set" ""
  /\ Api.castType (parse (column_of "set('a','b')" "") Parse.defaultSettings)
     = CT_set
  /\ field_cast (column_of "set('a','b')" "") = CT_string
  /\ directive_present "set" "@set"
  /\ Api.castType (parse (column_of "set('a','b')" "@set")
                         Parse.defaultSettings)
     = CT_set
  /\ Api.javascriptType (parse (column_of "set('a','b')" "@set")
                               Parse.defaultSettings)
     = "Set<'a'|'b'>"
  /\ field_cast (column_of "set('a','b')" "@set") = CT_set
  /\ field_type (column_of "set('a','b')" "@set") = "Set<'a'|'b'>"
  /\ ~ directive_present "set" "@settings"
  /\ field_cast (column_of "set('a','b')" "@settings") = CT_set
  /\ directive_present "set" "@json(Foo) @set(x)"
  /\ field_cast (column_of "set('a','b')" "@json(Foo) @set(x)") = CT_string.
Proof.
  split; [reflexivity|]. split; [no_directive "set" ""|].
  split; [reflexivity|]. split; [reflexivity|].
  split; [has_directive "set" "@set"|].
  split; [reflexivity|]. split; [reflexivity|].
  split; [reflexivity|]. split; [reflexivity|].
  split; [no_directive "set" "@settings"|]. split; [reflexivity|].
  split; [has_directive "set" "@json(Foo) @set(x)"|].
  reflexivity.
Qed.

(** C3 on the settings-aware parser.  An enum column is cast as enum, with
    or without a directive and whatever the settings, where the claim, the
    [Field] class and the closing comment of [getFieldCastType] have
    string. *)
Theorem C3_parser_enum_cast_kind :
  Parse.getFieldKnownMySQLType SPEC_TYPES (column_of "enum('a','b')" "")
  = Some "enum"
  /\ Api.castType (parse (column_of "enum('a','b')" "") Parse.defaultSettings)
     = CT_enum
  /\ Api.castType (parse (column_of "enum('a','b')" "@enum(Size)")
                         (Parse.mkSettings (Some false) (Some false)))
     = CT_enum
  /\ CT_enum <> CT_string
  /\ field_cast (column_of "enum('a','b')" "") = CT_string
  /\ field_cast (column_of "enum('a','b')" "@enum(Size)") = CT_string.
Proof. repeat split; discriminate. Qed.

Lemma C4_tinyint_width_one_witness :
  Api.castType (parse (column_of "tinyint(1)" "") Parse.defaultSettings)
  = CT_boolean
  /\ Api.castType (parse (column_of "tinyint(1)" "")
                         (Parse.mkSettings None (Some false))) = CT_int
  /\ Api.castType (parse (column_of "tinyint(2)" "") Parse.defaultSettings)
     = CT_int
  /\ Api.castType (parse (column_of "tinyint" "") Parse.defaultSettings)
     = CT_int.
Proof.
  split; [|split; [|split]].
  - exact (proj1 (C4_tinyint_width_one SPEC_TYPES (fun s => s)
                    (column_of "tinyint(1)" "") Parse.defaultSettings eq_refl)
                 eq_refl).
  - exact (proj1 (C4_tinyint_width_one SPEC_TYPES (fun s => s)
                    (column_of "tinyint(1)" "")
                    (Parse.mkSettings None (Some false)) eq_refl)
                 eq_refl).
  - exact (proj2 (C4_tinyint_width_one SPEC_TYPES (fun s => s)
                    (column_of "tinyint(2)" "") Parse.defaultSettings eq_refl)
                 eq_refl).
  - exact (proj2 (C4_tinyint_width_one SPEC_TYPES (fun s => s)
                    (column_of "tinyint" "") Parse.defaultSettings eq_refl)
                 eq_refl).
Defined.

(** The claim of C4 fails on a tinyint column that is not declared exactly
    [tinyint(1)]: [tinyint(1) unsigned] is cast as boolean, not as int. *)
Lemma C4_counterexample :
  Type_ (column_of "tinyint(1) unsigned" "") <> "tinyint(1)"
  /\ Parse.getFieldKnownMySQLType SPEC_TYPES
       (column_of "tinyint(1) unsigned" "") = Some "tinyint"
  /\ Api.castType (parse (column_of "tinyint(1) unsigned" "")
                         Parse.defaultSettings) = CT_boolean
  /\ Api.castType (parse (column_of "tinyint(1) unsigned" "")
                         Parse.defaultSettings) <> CT_int.
Proof. repeat split; discriminate. Qed.

(** How the expression of [typeAnnotations] reads some comments. *)
Example typeAnnotations_bare_set :
  Acli.typeAnnotations (column_of "set('a','b')" "sizes @Set")
  = [Acli.mkAnnotation "@Set" "set" None].
Proof. reflexivity. Qed.

Example typeAnnotations_with_argument :
  Acli.typeAnnotations (column_of "json" "@json( Pricing ) @bigint")
  = [Acli.mkAnnotation "@json( Pricing )" "json" (Some " Pricing ");
     Acli.mkAnnotation "@bigint" "bigint" None].
Proof. reflexivity. Qed.

(** The argument group is greedy: it runs to the last closing parenthesis of
    the line and swallows a directive in between. *)
Example typeAnnotations_greedy_argument :
  Acli.typeAnnotations (column_of "set('a','b')" "@json(Foo) @set(x)")
  = [Acli.mkAnnotation "@json(Foo) @set(x)" "json" (Some "Foo) @set(x")].
Proof. reflexivity. Qed.

(** No boundary is asked for after the kind. *)
Example typeAnnotations_no_boundary :
  Acli.typeAnnotations (column_of "set('a','b')" "@settings")
  = [Acli.mkAnnotation "@set" "set" None].
Proof. reflexivity. Qed.

Example getParenthesizedArgs_examples :
  Utils.getParenthesizedArgs "tinyint(1) unsigned" "tinyint" = "1"
  /\ Utils.getParenthesizedArgs "TINYINT ( 1 )" "tinyint" = " 1 "
  /\ Utils.getParenthesizedArgs "tinyint" "tinyint" = ""
  /\ Utils.getParenthesizedArgs "set('a', 'b')" "set" = "'a', 'b'"
  /\ Utils.getParenthesizedArgs "@json" "@json" = "".
Proof. repeat split. Qed.

(** C5 on the settings-aware parser.  A json column whose comment is the bare
    directive [@json] gets the empty string as its type, where the [Field]
    class falls back to the default json type. *)
Theorem C5_bare_json_directive :
  Api.castType (parse (column_of "json" "@json") Parse.defaultSettings)
  = CT_json
  /\ Api.javascriptType (parse (column_of "json" "@json") Parse.defaultSettings)
     = ""
  /\ Api.javascriptType (parse (column_of "json" "") Parse.defaultSettings)
     = DEFAULT_JSON_FIELD_TYPE
  /\ field_type (column_of "json" "@json") = DEFAULT_JSON_FIELD_TYPE.
Proof. repeat split. Qed.

End Columns.

(** ** The runtime *)

Section RuntimeFacts.
Import Db.

Variable World : Type.
Variable conn_execute :
  Sql -> option CustomModelCast -> World -> World * (Thrown + ExecutedQuery).
Variable now : World -> Z.
Variable WhereInput OrderByInput : Type.
Variable bt : list string -> Sql.
Variable getWhere : option WhereInput -> string -> Thrown + Sql.
Variable getOrderBy : option OrderByInput -> string -> Thrown + Sql.
Variable getLimitOffset : option OneBasedPagingInput -> Thrown + Sql.
Variable JSON_stringify : JsVal -> Thrown + JsVal.
Variable gt_max_safe_other : JsVal -> bool.
Variable Number_other : JsVal -> JsVal.
Variable loggingOptions : DbLoggingOptions World.

Local Abbreviation run_execute :=
  (execute World conn_execute now loggingOptions).

(** The catch clause of [execute]. *)
Lemma execute_rethrows (query : Sql) (cast : option CustomModelCast)
  (e : Env World) (w1 w2 : World) (t : Thrown) :
  conn_execute query cast (world World e) = (w1, inl t) ->
  errorLogger World loggingOptions (newExecuteError t query) w1 = (w2, None) ->
  run_execute query cast e
  = (mkEnv World w2 (query :: sent World e),
     inl (ErrorObj "Internal server error.")).
Proof.
  intros Ht Hl.
  unfold execute, try_catch, bind, read_clock, call_transport, call_hook,
    throw. cbn.
  rewrite Ht. cbn. rewrite Hl. reflexivity.
Qed.

(** With a hook injected, the getter hands out that hook. *)
Lemma errorLogger_configured
  (hook : ExecuteError -> World -> World * option Thrown)
  (err : ExecuteError) :
  errorLoggerOption World loggingOptions = Some hook ->
  errorLogger World loggingOptions err = hook err.
Proof. intros H. unfold errorLogger. now rewrite H. Qed.

(** A statement that the transport executes and the performance hook lets
    pass comes back unchanged. *)
Lemma execute_returns (query : Sql) (cast : option CustomModelCast)
  (e : Env World) (w1 w2 : World) (r : ExecutedQuery) :
  conn_execute query cast (world World e) = (w1, inr r) ->
  performanceLogger World loggingOptions r (now w1 - now (world World e)) w1
  = (w2, None) ->
  run_execute query cast e = (mkEnv World w2 (query :: sent World e), inr r).
Proof.
  intros Ht Hl.
  unfold execute, try_catch, bind, read_clock, call_transport, call_hook, ret.
  cbn. rewrite Ht. cbn. rewrite Hl. reflexivity.
Qed.

Variable model : Api.ModelDefinition.
Variable join_of_nothing : Thrown + Sql.

Local Abbreviation run_findMany :=
  (findMany World conn_execute now WhereInput OrderByInput bt getWhere
     getOrderBy getLimitOffset loggingOptions model join_of_nothing).
Local Abbreviation run_countBigInt :=
  (countBigInt World conn_execute now WhereInput bt getWhere loggingOptions
     model).
Local Abbreviation run_count :=
  (count World conn_execute now WhereInput bt getWhere gt_max_safe_other
     Number_other loggingOptions model).
Local Abbreviation run_create :=
  (create World conn_execute now bt JSON_stringify loggingOptions model).
Local Abbreviation run_findFirst :=
  (findFirst World conn_execute now WhereInput OrderByInput bt getWhere
     getOrderBy getLimitOffset loggingOptions model join_of_nothing).
Local Abbreviation run_findFirstOrThrow :=
  (findFirstOrThrow World conn_execute now WhereInput OrderByInput bt getWhere
     getOrderBy getLimitOffset loggingOptions model join_of_nothing).
Local Abbreviation run_updateWhere :=
  (updateWhere World conn_execute now WhereInput bt getWhere JSON_stringify
     loggingOptions model join_of_nothing).
Local Abbreviation run_update :=
  (update World conn_execute now WhereInput bt getWhere JSON_stringify
     loggingOptions model join_of_nothing).
Local Abbreviation run_deleteWhere :=
  (deleteWhere World conn_execute now WhereInput bt getWhere loggingOptions
     model).
Local Abbreviation run_delete :=
  (delete World conn_execute now WhereInput bt getWhere loggingOptions model).

Lemma find_none_unknown (name : string) :
  List.find (fun f => String.eqb (Api.fieldName f) name) (Api.fields model)
  = None <-> unknown_field model name.
Proof.
  unfold unknown_field, fields. induction (Api.fields model) as [|f l IH]; cbn.
  - split; [intros _ f [] | reflexivity].
  - destruct (String.eqb (Api.fieldName f) name) eqn:E.
    + apply String.eqb_eq in E. split; [discriminate|].
      intros H. exfalso. apply (H f); [now left | assumption].
    + apply String.eqb_neq in E. rewrite IH. split.
      * intros H g [<- | Hg]; [assumption | now apply H].
      * intros H g Hg. apply H. now right.
Qed.

Lemma getSelectForFieldName_unknown (name : string) :
  unknown_field model name ->
  getSelectForFieldName bt model name = inl (invalid_select name).
Proof.
  intros H. apply find_none_unknown in H.
  unfold getSelectForFieldName, fields. now rewrite H.
Qed.

Lemma getSelectForFieldName_throws (name : string) (t : Thrown) :
  getSelectForFieldName bt model name = inl t ->
  unknown_field model name /\ t = invalid_select name.
Proof.
  unfold getSelectForFieldName, fields.
  destruct (List.find _ (Api.fields model)) eqn:E; [discriminate|].
  intros [= <-]. split; [now apply find_none_unknown | reflexivity].
Qed.

(** Mapping over names stops at the first unknown one. *)
Lemma select_names_throw (names : list string) (bad : string) :
  In bad names -> unknown_field model bad ->
  exists x, In x names /\ unknown_field model x
            /\ map_throwing (getSelectForFieldName bt model) names
               = inl (invalid_select x).
Proof.
  induction names as [|n names IH]; intros Hin Hbad; [destruct Hin|].
  cbn. destruct (getSelectForFieldName bt model n) as [t|sql] eqn:E.
  - apply getSelectForFieldName_throws in E as [Hn ->].
    exists n. split; [now left | split; [assumption | reflexivity]].
  - destruct Hin as [-> | Hin].
    + rewrite (getSelectForFieldName_unknown bad Hbad) in E. discriminate E.
    + destruct (IH Hin Hbad) as (x & Hx & Hux & Hm).
      exists x. rewrite Hm. split; [now right | split; [assumption | reflexivity]].
Qed.

(** C8.  A [findMany] whose [select] lists a name that is no field of the
    model throws, leaves the world as it was and hands nothing to the
    transport; when the where, order and paging helpers return, what it
    throws is the invalid-select error for the first unknown name. *)
Theorem C8_unknown_select_fails_before_execution (input : FindManyInput _ _)
  (names : list string) (bad : string) (e : Env World) :
  fm_select _ _ input = SelectNames names ->
  In bad names ->
  unknown_field model bad ->
  (exists t, run_findMany input e = (e, inl t))
  /\ (forall where_ orderBy limit,
        getWhere (fm_where _ _ input) (Api.tableName model) = inr where_ ->
        getOrderBy (fm_orderBy _ _ input) (Api.tableName model)
        = inr orderBy ->
        getLimitOffset (fm_paging _ _ input) = inr limit ->
        exists x, In x names /\ unknown_field model x
                  /\ run_findMany input e = (e, inl (invalid_select x))).
Proof.
  intros Hsel Hin Hbad.
  destruct (select_names_throw names bad Hin Hbad) as (x & Hx & Hux & Hm).
  assert (Hrun : forall where_ orderBy limit,
             getWhere (fm_where _ _ input) (Api.tableName model) = inr where_ ->
             getOrderBy (fm_orderBy _ _ input) (Api.tableName model)
             = inr orderBy ->
             getLimitOffset (fm_paging _ _ input) = inr limit ->
             run_findMany input e = (e, inl (invalid_select x))).
  { intros where_ orderBy limit Hw Ho Hl.
    unfold findMany, bind, lift, tableName, selectColumns.
    rewrite Hw, Ho, Hl, Hsel.
    destruct names as [|n ns]; [destruct Hin|]. now rewrite Hm. }
  split.
  - unfold findMany, bind, lift, tableName, selectColumns.
    destruct (getWhere _ _) as [t|where_] eqn:Hw; [now exists t|].
    destruct (getOrderBy _ _) as [t|orderBy] eqn:Ho; [now exists t|].
    destruct (getLimitOffset _) as [t|limit] eqn:Hl; [now exists t|].
    exists (invalid_select x). rewrite Hsel.
    destruct names as [|n ns]; [destruct Hin|]. now rewrite Hm.
  - intros where_ orderBy limit Hw Ho Hl. exists x.
    split; [assumption | split; [assumption | now apply (Hrun where_ orderBy limit)]].
Qed.

Lemma executeSelect_returns (query : Sql) (cast : option CustomModelCast)
  (e : Env World) (w1 w2 : World) (r : ExecutedQuery) :
  conn_execute query cast (world World e) = (w1, inr r) ->
  performanceLogger World loggingOptions r (now w1 - now (world World e)) w1
  = (w2, None) ->
  executeSelect World conn_execute now loggingOptions query cast e
  = (mkEnv World w2 (query :: sent World e), inr (r, rows r)).
Proof.
  intros Ht Hl. unfold executeSelect, bind.
  now rewrite (execute_returns query cast e w1 w2 r Ht Hl).
Qed.

(** C7.  With the count the transport returns in [ct], [countBigInt] returns
    it whatever its size; [count] throws the overflow error when it exceeds
    [Number.MAX_SAFE_INTEGER] and returns it as a number otherwise. *)
Theorem C7_count_overflow (where_in : option WhereInput) (where_ : Sql)
  (e : Env World) (w1 w2 : World) (r : ExecutedQuery)
  (row : gmap string JsVal) (others : list (gmap string JsVal)) (z : Z) :
  getWhere where_in (Api.tableName model) = inr where_ ->
  conn_execute (countQuery bt model where_) (Some [("ct", CT_bigint)])
    (world World e) = (w1, inr r) ->
  performanceLogger World loggingOptions r (now w1 - now (world World e)) w1
  = (w2, None) ->
  rows r = row :: others ->
  row !! "ct" = Some (VBigInt z) ->
  let e' := mkEnv World w2 (countQuery bt model where_ :: sent World e) in
  run_countBigInt where_in e = (e', inr (VBigInt z))
  /\ ((MAX_SAFE_INTEGER < z)%Z ->
      run_count where_in e
      = (e', inl (ErrorObj
           "count returned a number greater than Number.MAX_SAFE_INTEGER")))
  /\ ((z <= MAX_SAFE_INTEGER)%Z ->
      run_count where_in e = (e', inr (VNumber z))).
Proof.
  intros Hw Ht Hl Hrows Hct e'.
  assert (Hbig : run_countBigInt where_in e = (e', inr (VBigInt z))).
  { unfold countBigInt, bind, lift, tableName. rewrite Hw.
    rewrite (executeSelect_returns _ _ e w1 w2 r Ht Hl). cbn.
    rewrite Hrows. unfold get, ret. now rewrite Hct. }
  split; [exact Hbig|]. split; intros Hz.
  - unfold count, bind. rewrite Hbig.
    apply Z.ltb_lt in Hz. now rewrite Hz.
  - unfold count, bind. rewrite Hbig.
    apply Z.ltb_ge in Hz. now rewrite Hz.
Qed.

Local Abbreviation failed w q e :=
  (mkEnv World w (q :: sent World e), inl (ErrorObj "Internal server error.")).


Lemma pick_keys_lookup_from (data acc : gmap string JsVal)
  (names : list string) (k : string) :
  foldl (fun (a : gmap string JsVal) n => <[ n := get data n ]> a) acc names
  !! k
  = if bool_decide (k ∈ names) then Some (get data k) else acc !! k.
Proof.
  revert acc. induction names as [|n names IH]; intros acc; cbn.
  - reflexivity.
  - rewrite IH. destruct (decide (k ∈ names)) as [Hin | Hnin].
    + rewrite !bool_decide_eq_true_2; [reflexivity | now right | assumption].
    + rewrite (bool_decide_eq_false_2 (k ∈ names)) by assumption.
      destruct (decide (n = k)) as [-> | Hne].
      * rewrite lookup_insert_eq.
        rewrite bool_decide_eq_true_2; [reflexivity | now left].
      * rewrite lookup_insert_ne by assumption.
        rewrite bool_decide_eq_false_2; [reflexivity|].
        intros Hin. apply elem_of_cons in Hin as [-> | Hin]; contradiction.
Qed.

(** The record picked from [data] has exactly the listed keys, each with the
    value [data] holds for it. *)
Lemma pick_keys_lookup (data : gmap string JsVal) (names : list string)
  (k : string) :
  pick_keys data names !! k
  = if bool_decide (k ∈ names) then Some (get data k) else None.
Proof. unfold pick_keys. now rewrite pick_keys_lookup_from, lookup_empty. Qed.

Lemma find_head_filter {A} (p : A -> bool) (l : list A) :
  List.find p l = List.head (List.filter p l).
Proof.
  induction l as [|a l IH]; cbn; [reflexivity|].
  destruct (p a); [reflexivity | exact IH].
Qed.

Lemma find_none_all_false {A} (p : A -> bool) (l : list A) :
  (forall a, In a l -> p a = false) -> List.find p l = None.
Proof.
  induction l as [|a l IH]; intros H; cbn; [reflexivity|].
  rewrite (H a) by now left. apply IH. intros b Hb. apply H. now right.
Qed.

(** What [create] does once its statement went through. *)
Lemma create_returns (data : list (string * JsVal)) (vals : list Sql)
  (e : Env World) (w1 w2 : World) (r : ExecutedQuery) :
  let q := insertQuery bt model
             (List.map (fun kv => bt [Api.tableName model; fst kv]) data)
             vals in
  map_throwing (fun kv => insertValue JSON_stringify model (fst kv) (snd kv))
    data = inr vals ->
  conn_execute q None (world World e) = (w1, inr r) ->
  performanceLogger World loggingOptions r (now w1 - now (world World e)) w1
  = (w2, None) ->
  run_create data e
  = (mkEnv World w2 (q :: sent World e),
     inr (match autoIncrementingPrimaryKey model with
          | Some (String c name) => {[ String c name := insertId r ]}
          | _ => pick_keys (list_to_map data) (primaryKeys model)
          end)).
Proof.
  intros q Hv Ht Hl. unfold create, bind, lift, tableName. rewrite Hv.
  fold q. rewrite (execute_returns q None e w1 w2 r Ht Hl).
  destruct (autoIncrementingPrimaryKey model) as [[|c name]|]; reflexivity.
Qed.

(** C6.  Once the insert went through, [create] on a model whose single
    auto-increment primary key is [id] returns [{id: insertId}], and on a
    model without any auto-increment field it returns the record that maps
    each primary-key field name to the value [data] holds for it. *)
Theorem C6_create_returns_primary_key (data : list (string * JsVal))
  (vals : list Sql) (e : Env World) (w1 w2 : World) (r : ExecutedQuery) :
  let q := insertQuery bt model
             (List.map (fun kv => bt [Api.tableName model; fst kv]) data)
             vals in
  map_throwing (fun kv => insertValue JSON_stringify model (fst kv) (snd kv))
    data = inr vals ->
  conn_execute q None (world World e) = (w1, inr r) ->
  performanceLogger World loggingOptions r (now w1 - now (world World e)) w1
  = (w2, None) ->
  ((exists f, List.filter Api.isAutoIncrement (Api.fields model) = [f]
              /\ Api.fieldName f = "id" /\ Api.isPrimaryKey f = true
              /\ primaryKeys model = ["id"]) ->
   run_create data e
   = (mkEnv World w2 (q :: sent World e), inr {[ "id" := insertId r ]}))
  /\ ((forall f, In f (Api.fields model) -> Api.isAutoIncrement f = false) ->
      exists pk : gmap string JsVal,
        run_create data e = (mkEnv World w2 (q :: sent World e), inr pk)
        /\ forall k, pk !! k
                     = if bool_decide (k ∈ primaryKeys model)
                       then Some (get (list_to_map data) k) else None).
Proof.
  intros q Hv Ht Hl.
  pose proof (create_returns data vals e w1 w2 r Hv Ht Hl) as Hc.
  fold q in Hc. split.
  - intros (f & Hf & Hname & _ & _). rewrite Hc.
    unfold autoIncrementingPrimaryKey, fields.
    now rewrite find_head_filter, Hf; cbn; rewrite Hname.
  - intros Hnone. eexists. split.
    + rewrite Hc. unfold autoIncrementingPrimaryKey, fields.
      rewrite (find_none_all_false _ _ Hnone). reflexivity.
    + intros k. apply pick_keys_lookup.
Qed.

(** With a first auto-increment field of non-empty name, [create] returns
    the record keyed on that field alone, primary key or not. *)
Lemma create_keyed_on_auto_increment (data : list (string * JsVal))
  (vals : list Sql) (e : Env World) (w1 w2 : World) (r : ExecutedQuery)
  (f : Api.FieldDefinition) :
  let q := insertQuery bt model
             (List.map (fun kv => bt [Api.tableName model; fst kv]) data)
             vals in
  map_throwing (fun kv => insertValue JSON_stringify model (fst kv) (snd kv))
    data = inr vals ->
  conn_execute q None (world World e) = (w1, inr r) ->
  performanceLogger World loggingOptions r (now w1 - now (world World e)) w1
  = (w2, None) ->
  List.find Api.isAutoIncrement (Api.fields model) = Some f ->
  Api.fieldName f <> "" ->
  run_create data e
  = (mkEnv World w2 (q :: sent World e),
     inr {[ Api.fieldName f := insertId r ]}).
Proof.
  intros q Hv Ht Hl Hf Hname.
  pose proof (create_returns data vals e w1 w2 r Hv Ht Hl) as Hc.
  fold q in Hc. rewrite Hc. unfold autoIncrementingPrimaryKey, fields.
  rewrite Hf. destruct (Api.fieldName f); [contradiction | reflexivity].
Qed.

End RuntimeFacts.

(** ** Concrete runs *)

Section Runs.
Import Db Sample.

Local Abbreviation inserted := (mkExecutedQuery [] (VString "7")).
Local Abbreviation counted z :=
  (mkExecutedQuery [{[ "ct" := VBigInt z ]}] VNull).

Local Abbreviation create_on conn model :=
  (create nat conn now bt JSON_stringify no_logging model).
Local Abbreviation count_on conn :=
  (count nat conn now unit bt getWhere gt_max_safe_other Number_other
     no_logging user_model).
Local Abbreviation countBigInt_on conn :=
  (countBigInt nat conn now unit bt getWhere no_logging user_model).
Local Abbreviation findMany_on conn :=
  (findMany nat conn now unit unit bt getWhere getOrderBy getLimitOffset
     no_logging user_model Pred.join_refuses).

Local Abbreviation refused := (ErrorObj "syntax error near 'FORM user'").
Local Abbreviation misspelt := [Raw "SELECT * FORM user"].
Local Abbreviation delete_all :=
  (deleteQuery bt user_model []).


Lemma unknown_x : unknown_field user_model "x".
Proof. intros f [<- | [<- | []]]; discriminate. Qed.

Lemma C8_unknown_select_fails_before_execution_witness :
  exists t,
    findMany_on (conn_returning inserted)
      (mkFindManyInput unit unit None None None (SelectNames ["id"; "x"]))
      start
    = (start, inl t).
Proof.
  exact (proj1 (C8_unknown_select_fails_before_execution nat
                  (conn_returning inserted) now unit unit bt getWhere
                  getOrderBy getLimitOffset no_logging user_model
                  Pred.join_refuses
                  (mkFindManyInput unit unit None None None
                     (SelectNames ["id"; "x"]))
                  ["id"; "x"] "x" start eq_refl
                  (or_intror (or_introl eq_refl)) unknown_x)).
Defined.

Lemma C7_count_overflow_witness :
  snd (countBigInt_on (conn_returning (counted (2 ^ 53))) None start)
  = inr (VBigInt (2 ^ 53))
  /\ snd (count_on (conn_returning (counted (2 ^ 53))) None start)
     = inl (ErrorObj
              "count returned a number greater than Number.MAX_SAFE_INTEGER")
  /\ snd (count_on (conn_returning (counted 42)) None start)
     = inr (VNumber 42).
Proof.
  pose proof (C7_count_overflow nat (conn_returning (counted (2 ^ 53))) now
                unit bt getWhere gt_max_safe_other Number_other no_logging
                user_model None [] start 1%nat 1%nat (counted (2 ^ 53))
                {[ "ct" := VBigInt (2 ^ 53) ]} [] (2 ^ 53)%Z
                eq_refl eq_refl eq_refl eq_refl eq_refl) as (H1 & H2 & _).
  pose proof (C7_count_overflow nat (conn_returning (counted 42)) now
                unit bt getWhere gt_max_safe_other Number_other no_logging
                user_model None [] start 1%nat 1%nat (counted 42)
                {[ "ct" := VBigInt 42 ]} [] 42%Z
                eq_refl eq_refl eq_refl eq_refl eq_refl) as (_ & _ & H3).
  split; [|split].
  - now rewrite H1.
  - rewrite H2; [reflexivity | reflexivity].
  - rewrite H3; [reflexivity | discriminate].
Defined.

Lemma C6_create_returns_primary_key_witness :
  snd (create_on (conn_returning inserted) user_model
         [("name", VString "Ann")] start)
  = inr {[ "id" := VString "7" ]}
  /\ exists pk : gmap string JsVal,
       snd (create_on (conn_returning inserted) membership_model
              [("a", VString "x"); ("b", VString "y")] start)
       = inr pk
       /\ pk !! "a" = Some (VString "x") /\ pk !! "b" = Some (VString "y")
       /\ pk !! "note" = None.
Proof.
  split.
  - rewrite (proj1 (C6_create_returns_primary_key nat
                      (conn_returning inserted) now bt JSON_stringify
                      no_logging user_model [("name", VString "Ann")]
                      [[Bound (VString "Ann")]] start 1%nat 1%nat inserted
                      eq_refl eq_refl eq_refl)).
    + reflexivity.
    + exists (field_of "id" CT_string true true). repeat split.
  - destruct (proj2 (C6_create_returns_primary_key nat
                       (conn_returning inserted) now bt JSON_stringify
                       no_logging membership_model
                       [("a", VString "x"); ("b", VString "y")]
                       [[Bound (VString "x")]; [Bound (VString "y")]]
                       start 1%nat 1%nat inserted eq_refl eq_refl eq_refl))
      as (pk & Hrun & Hpk).
    + intros f [<- | [<- | [<- | []]]]; reflexivity.
    + exists pk. rewrite Hrun, !Hpk. repeat split.
Defined.

(** C10 on a model whose auto-increment field has the empty name: the
    truthiness test on that name sends [create] down the path that reads the
    primary key from [data].  An auto-increment field of non-empty name keys
    the result even when it is no primary key. *)
Theorem C10_empty_name_auto_increment :
  autoIncrementingPrimaryKey underscore_model = Some ""
  /\ snd (create_on (conn_returning inserted) underscore_model [] start)
     = inr {[ "" := VUndefined ]}
  /\ snd (create_on (conn_returning inserted) underscore_model [] start)
     <> inr {[ "" := VString "7" ]}
  /\ snd (create_on (conn_returning inserted) ticket_model
            [("code", VString "x")] start)
     = inr {[ "seq" := VString "7" ]}.
Proof.
  split; [reflexivity|]. split; [reflexivity|]. split; [|reflexivity].
  intros H. apply (f_equal (fun r => match r with
                                     | inr m => (m : gmap string JsVal) !! ""
                                     | inl _ => None
                                     end)) in H.
  vm_compute in H. discriminate H.
Qed.

End Runs.

(** * Further properties of the code *)

Ltac eval_eqb :=
  repeat match goal with
         | |- context [String.eqb (String ?c1 ?s1) (String ?c2 ?s2)] =>
             let a := constr:(String c1 s1) in
             let b := constr:(String c2 s2) in
             let v := eval vm_compute in (String.eqb a b) in
             match v with
             | true => change (String.eqb a b) with true
             | false => change (String.eqb a b) with false
             end
         end;
  cbn [orb andb negb existsb].

Ltac split_on_type t :=
  repeat (eval_eqb;
          match goal with
          | |- context [String.eqb t ?lit] =>
              let E := fresh "E" in
              destruct (String.eqb t lit) eqn:E;
              [apply String.eqb_eq in E; subst t
              |apply String.eqb_neq in E]
          | |- context [String.eqb ?lit t] =>
              let E := fresh "E" in
              destruct (String.eqb lit t) eqn:E;
              [apply String.eqb_eq in E; subst t
              |apply String.eqb_neq in E]
          end);
  eval_eqb.

(** ** The settings-aware parser *)

Section MoreParseFacts.
Import Js Utils Parse Pred.

Lemma first_alternative_member (choices : list string) (prev : option ascii)
  (s m : string) :
  first_alternative choices prev s = Some m ->
  exists ch, In ch choices /\ toLowerCase m = toLowerCase ch.
Proof.
  induction choices as [|ch rest IH]; cbn; [discriminate|].
  destruct (starts_with_ci ch s) as [[m' tl]|] eqn:E.
  - destruct (word_boundary (last_of prev m') (head tl)).
    + intros [= <-]. apply starts_with_ci_spec in E as [_ E].
      exists ch. split; [now left | assumption].
    + intros H. destruct (IH H) as (c & Hc & Hm). exists c. split; [now right | assumption].
  - intros H. destruct (IH H) as (c & Hc & Hm). exists c. split; [now right | assumption].
Qed.

Lemma first_match_member (choices : list string) (s : string) :
  forall (prev : option ascii) (m : string),
    first_match choices prev s = Some m ->
    exists ch, In ch choices /\ toLowerCase m = toLowerCase ch.
Proof.
  induction s as [|c s IH]; intros prev m; cbn.
  - destruct (word_boundary prev None); [|discriminate].
    destruct (first_alternative choices prev "") eqn:E; [|discriminate].
    intros [= <-]. now apply first_alternative_member in E.
  - destruct (if word_boundary prev (Some c)
              then first_alternative choices prev (String c s) else None)
      as [m'|] eqn:E.
    + intros [= <-]. destruct (word_boundary prev (Some c)); [|discriminate].
      now apply first_alternative_member in E.
    + apply IH.
Qed.

(** The known type of a column is always the lower-case form of an entry of
    the vocabulary. *)
Theorem known_type_in_vocabulary (KNOWN_MYSQL_TYPES : list string)
  (col : ColumnRow) (t : string) :
  getFieldKnownMySQLType KNOWN_MYSQL_TYPES col = Some t ->
  exists ch, In ch KNOWN_MYSQL_TYPES /\ t = toLowerCase ch.
Proof.
  unfold getFieldKnownMySQLType.
  destruct (first_match KNOWN_MYSQL_TYPES None (Type_ col)) as [m|] eqn:E;
    [|discriminate].
  intros [= <-]. apply first_match_member in E as (ch & Hin & Hm).
  exists ch. split; assumption.
Qed.

(** Outside bigint and tinyint the cast kind is a function of the known type
    alone: neither the settings nor the column's comment or declaration
    change it. *)
Theorem cast_kind_depends_on_type_only (col col' : ColumnRow)
  (settings settings' : Settings) (t : string) :
  t <> "bigint" -> t <> "tinyint" ->
  getFieldCastType col (Some t) settings
  = getFieldCastType col' (Some t) settings'.
Proof.
  intros Hb Ht. unfold getFieldCastType, includes.
  destruct (is_empty t); [reflexivity|].
  destruct (String.eqb "json" t); [reflexivity|].
  destruct (String.eqb "bigint" t) eqn:E1;
    [apply String.eqb_eq in E1; congruence|].
  destruct (String.eqb t "tinyint") eqn:E2;
    [apply String.eqb_eq in E2; congruence|].
  reflexivity.
Qed.

(** Which columns get which cast kind: json, set and enum come from the
    types of those names only, boolean from a tinyint of width 1 unless the
    flag is off, bigint from a bigint with the flag off or the directive. *)
Theorem cast_kind_inversion (col : ColumnRow) (settings : Settings)
  (t : string) :
  let ct := getFieldCastType col (Some t) settings in
  (ct = CT_json <-> t = "json")
  /\ (ct = CT_set <-> t = "set")
  /\ (ct = CT_enum <-> t = "enum")
  /\ (ct = CT_boolean
      <-> t = "tinyint" /\ width_is_one col = true
          /\ typeTinyIntOneAsBoolean settings <> Some false)
  /\ (ct = CT_bigint
      <-> t = "bigint"
          /\ (typeBigIntAsString settings = Some false
              \/ hasColumnCommentAnnotation "bigint" col = true))
  /\ (ct = CT_date <-> In t ["date"; "datetime"; "timestamp"])
  /\ (ct = CT_float <-> In t ["float"; "double"; "real"; "decimal"; "numeric"]).
Proof.
  unfold getFieldCastType, includes, width_is_one.
  destruct t as [|c0 t0];
    [cbn [is_empty In];
     repeat split; intros; try discriminate;
     repeat match goal with
            | H : _ /\ _ |- _ => destruct H
            | H : _ \/ _ |- _ => destruct H
            | H : False |- _ => destruct H
            end; try discriminate|].
  cbn [is_empty]. remember (String c0 t0) as t eqn:Ht. clear Ht c0 t0.
  split_on_type t;
    repeat match goal with
           | |- context [typeBigIntAsString settings] =>
               destruct (typeBigIntAsString settings) as [[]|]
           | |- context [typeTinyIntOneAsBoolean settings] =>
               destruct (typeTinyIntOneAsBoolean settings) as [[]|]
           | |- context [hasColumnCommentAnnotation "bigint" col] =>
               destruct (hasColumnCommentAnnotation "bigint" col)
           | |- context [String.eqb ?x "1"] =>
               destruct (String.eqb x "1")
           end; cbn [In];
    repeat split; intros;
    repeat match goal with
           | H : _ /\ _ |- _ => destruct H
           | H : _ \/ _ |- _ => destruct H
           | H : False |- _ => destruct H
           end;
    first [ reflexivity | discriminate | contradiction | tauto
          | solve [auto 8] | (subst; first [contradiction | congruence]) ].
Qed.

(** The generated type is empty in one case only: a json column whose
    comment holds the [@json] directive without a parenthesized argument, or
    with an empty one. *)
Theorem javascript_type_empty_only_for_json (col : ColumnRow)
  (ct : CastType) :
  getFieldJavascriptType col ct = "" ->
  ct = CT_json /\ hasColumnCommentAnnotation "json" col = true
  /\ getParenthesizedArgs (Comment_ col) "@json" = "".
Proof.
  destruct ct; cbn [getFieldJavascriptType]; try discriminate.
  - destruct (hasColumnCommentAnnotation "json" col); [|discriminate].
    intros H. repeat split. exact H.
  - destruct (is_empty _); discriminate.
  - destruct (is_empty (literal_union _)) eqn:E; [discriminate|].
    intros H. rewrite H in E. discriminate E.
Qed.

Lemma group_until_close_sound (r g : string) :
  group_until_close r = Some g ->
  exists post, r = g +:+ String ")" post /\ space_or_end post = true
               /\ all_chars not_line_terminator g = true.
Proof.
  revert g. induction r as [|c r IH]; intros g; cbn; [discriminate|].
  destruct (is_line_terminator c) eqn:Elt; [discriminate|].
  destruct (group_until_close r) as [g'|].
  - intros [= <-]. destruct (IH g' eq_refl) as (post & -> & Hs & Hg).
    exists post. rewrite append_cons. repeat split; [assumption|].
    cbn. unfold not_line_terminator at 1. now rewrite Elt, Hg.
  - destruct (Ascii.eqb c ")") eqn:Ec; cbn; [|discriminate].
    destruct (space_or_end r) eqn:Es; [|discriminate].
    intros [= <-]. apply Ascii.eqb_eq in Ec as ->.
    exists r. repeat split. assumption.
Qed.

Lemma ltrim_suffix (s : string) : exists ws, s = ws +:+ ltrim s.
Proof.
  induction s as [|c s [ws IH]]; cbn; [now exists ""|].
  destruct (is_space c).
  - exists (String c ws). now rewrite append_cons, <- IH.
  - now exists "".
Qed.

Lemma args_here_sound (prefix s g : string) :
  args_here prefix s = Some g ->
  exists pre post, s = pre +:+ String "(" (g +:+ String ")" post)
                   /\ space_or_end post = true
                   /\ all_chars not_line_terminator g = true.
Proof.
  unfold args_here.
  destruct (starts_with_ci prefix s) as [[m rest]|] eqn:E; [|discriminate].
  apply starts_with_ci_spec in E as [-> _].
  destruct (ltrim_suffix rest) as [ws Hws].
  destruct (ltrim rest) as [|c r] eqn:El; [discriminate|].
  destruct (Ascii.eqb c "(") eqn:Ec; [|discriminate].
  apply Ascii.eqb_eq in Ec as ->. intros Hg.
  apply group_until_close_sound in Hg as (post & -> & Hs & Hg).
  exists (m +:+ ws), post. rewrite Hws, append_assoc. repeat split; assumption.
Qed.

Lemma args_scan_sound (prefix s g : string) :
  args_scan prefix s = Some g ->
  exists pre post, s = pre +:+ String "(" (g +:+ String ")" post)
                   /\ space_or_end post = true
                   /\ all_chars not_line_terminator g = true.
Proof.
  induction s as [|c s IH]; cbn; [discriminate|].
  destruct (if is_space c then args_here prefix s else None) as [g'|] eqn:E.
  - intros [= <-]. destruct (is_space c); [|discriminate].
    apply args_here_sound in E as (pre & post & -> & Hs & Hg).
    exists (String c pre), post. repeat split; assumption.
  - intros H. destruct (IH H) as (pre & post & -> & Hs & Hg).
    exists (String c pre), post. repeat split; assumption.
Qed.

(** For a prefix without expression syntax, a non-empty result of
    [getParenthesizedArgs] stands in the source between an opening
    parenthesis and a closing one that is followed by white space or the
    end, and it holds no line terminator. *)
Theorem getParenthesizedArgs_sound (source prefix g : string) :
  plain_pattern prefix = true ->
  getParenthesizedArgs source prefix = g -> g <> "" ->
  exists pre post, source = pre +:+ String "(" (g +:+ String ")" post)
                   /\ space_or_end post = true
                   /\ all_chars not_line_terminator g = true.
Proof.
  unfold getParenthesizedArgs. intros _ H Hne.
  destruct source as [|c s].
  - cbn in H. destruct (args_here prefix "") eqn:E; [|congruence].
    subst. now apply args_here_sound in E.
  - destruct (if is_space c then args_here prefix s else None) as [g0|] eqn:E0.
    + subst g0. destruct (is_space c); [|discriminate].
      apply args_here_sound in E0 as (pre & post & -> & Hs & Hg).
      exists (String c pre), post. repeat split; assumption.
    + destruct (args_here prefix (String c s)) as [g1|] eqn:E1.
      * subst g1. now apply args_here_sound in E1.
      * destruct (args_scan prefix s) as [g2|] eqn:E2; [|congruence].
        subst g2. apply args_scan_sound in E2 as (pre & post & -> & Hs & Hg).
        exists (String c pre), post. repeat split; assumption.
Qed.

Lemma is_empty_append (a b : string) :
  is_empty a = false -> is_empty (a +:+ b) = false.
Proof. destruct a; [discriminate | reflexivity]. Qed.

Lemma join_nonempty (sep : string) (l : list string) :
  l <> [] -> (forall p, In p l -> is_empty p = false) ->
  is_empty (join sep l) = false.
Proof.
  destruct l as [|p [|q rest]]; intros Hne Hall; [congruence | |].
  - cbn. apply Hall. now left.
  - cbn [join]. apply is_empty_append. apply Hall. now left.
Qed.

Lemma union_of_pieces_empty (pieces : list string) :
  is_empty (join "|" (List.filter (fun s => negb (is_empty s))
                        (List.map trim pieces)))
  = forallb (fun p => is_empty (trim p)) pieces.
Proof.
  induction pieces as [|p pieces IH]; [reflexivity|].
  cbn [List.map List.filter forallb].
  destruct (is_empty (trim p)) eqn:E; cbn [negb andb]; [exact IH|].
  apply join_nonempty; [discriminate|].
  intros x [<- | Hx]; [assumption|].
  apply filter_In in Hx as [_ Hx]. now apply negb_true_iff in Hx.
Qed.

(** The type of a set column falls back to [Set<string>], and that of an enum
    column to [string], exactly when every comma-separated piece of the
    parenthesized definition is blank; otherwise it is built from the union
    of the pieces, which is then not empty. *)
Theorem literal_types_fallback (col : ColumnRow) :
  let blank args := forallb (fun p => is_empty (trim p)) (split_comma args) in
  getFieldJavascriptType col CT_set
  = (if blank (getParenthesizedArgs (Type_ col) "set") then "Set<string>"
     else "Set<" +:+ literal_union (getParenthesizedArgs (Type_ col) "set")
          +:+ ">")
  /\ getFieldJavascriptType col CT_enum
     = (if blank (getParenthesizedArgs (Type_ col) "enum") then "string"
        else literal_union (getParenthesizedArgs (Type_ col) "enum"))
  /\ (forall args, blank args = is_empty (literal_union args)).
Proof.
  intros blank.
  assert (Hb : forall args, blank args = is_empty (literal_union args)).
  { intros args. unfold blank, literal_union.
    now rewrite union_of_pieces_empty. }
  split; [|split; [|exact Hb]]; cbn [getFieldJavascriptType]; now rewrite Hb.
Qed.

(** For a directive name without expression syntax,
    [hasColumnCommentAnnotation] accepts exactly the comments in which the
    directive stands, in any case, at the start or after white space and
    before white space, an opening parenthesis or the end. *)
Theorem directive_recognised_iff (kind : string) (col : ColumnRow) :
  plain_pattern kind = true ->
  (hasColumnCommentAnnotation kind col = true
   <-> directive_present kind (Comment_ col)).
Proof.
  intros _. unfold hasColumnCommentAnnotation, directive_present.
  rewrite orb_true_iff, annotation_scan_spec, annotation_here_spec. split.
  - intros [(m & post & -> & Hm & Hp) | (p & c & rest & -> & Hc & Hh)].
    + exists "", m, post. repeat split; [assumption | now left | assumption].
    + apply annotation_here_spec in Hh as (m & post & -> & Hm & Hp).
      exists (p +:+ String c ""), m, post.
      rewrite append_assoc. repeat split; [assumption | | assumption].
      right. exists p, c. split; [reflexivity | assumption].
  - intros (pre & m & post & -> & Hm & [-> | (p & c & -> & Hc)] & Hp).
    + left. exists m, post. repeat split; assumption.
    + right. exists p, c, (String "@" (m +:+ post)).
      rewrite append_assoc. repeat split; [assumption|].
      apply annotation_here_spec. exists m, post. repeat split; assumption.
Qed.

End MoreParseFacts.

(** ** The [Field] class *)

Section MoreFieldFacts.
Import Js Utils Acli Pred.

Lemma kind_alternatives_member (kinds : list string) (s k rest : string) :
  kind_alternatives kinds s = Some (k, rest) ->
  exists kind, In kind kinds /\ toLowerCase k = toLowerCase kind.
Proof.
  induction kinds as [|kind kinds IH]; cbn; [discriminate|].
  destruct (starts_with_ci kind s) as [[k' rest']|] eqn:E.
  - intros [= <- <-]. apply starts_with_ci_spec in E as [_ E].
    exists kind. split; [now left | assumption].
  - intros H. destruct (IH H) as (x & Hx & Hk). exists x. split; [now right | assumption].
Qed.

Lemma group_until_last_paren_sound (r g rest : string) :
  group_until_last_paren r = Some (g, rest) ->
  r = g +:+ String ")" rest /\ all_chars not_line_terminator g = true.
Proof.
  revert g rest. induction r as [|c r IH]; intros g rest; cbn; [discriminate|].
  destruct (is_line_terminator c) eqn:Elt; [discriminate|].
  destruct (group_until_last_paren r) as [[g' rest']|].
  - intros [= <- <-]. destruct (IH g' rest' eq_refl) as [-> Hg].
    split; [reflexivity|]. cbn. unfold not_line_terminator at 1.
    now rewrite Elt, Hg.
  - destruct (Ascii.eqb c ")") eqn:Ec; [|discriminate].
    intros [= <- <-]. apply Ascii.eqb_eq in Ec as ->. now split.
Qed.

Lemma directive_here_sound (s k rest : string) (arg : option string) :
  directive_here s = Some (k, arg, rest) ->
  In (toLowerCase k) directive_kinds
  /\ (forall a, arg = Some a -> all_chars not_line_terminator a = true).
Proof.
  unfold directive_here. destruct s as [|c s]; [discriminate|].
  destruct (Ascii.eqb c "@"); [|discriminate].
  destruct (kind_alternatives ["bigint"; "enum"; "set"; "json"] s)
    as [[k' rest']|] eqn:E; [|discriminate].
  apply kind_alternatives_member in E as (kind & Hin & Hk).
  assert (Hkind : In (toLowerCase k') directive_kinds).
  { rewrite Hk. unfold directive_kinds.
    destruct Hin as [<- | [<- | [<- | [<- | []]]]]; cbn; auto. }
  destruct rest' as [|p r].
  - intros [= <- <- <-]. split; [assumption | discriminate].
  - destruct (Ascii.eqb p "(").
    + destruct (group_until_last_paren r) as [[g rest'']|] eqn:Eg.
      * intros [= <- <- <-]. split; [assumption|].
        intros a [= <-]. now apply group_until_last_paren_sound in Eg.
      * intros [= <- <- <-]. split; [assumption | discriminate].
    + intros [= <- <- <-]. split; [assumption | discriminate].
Qed.

Lemma match_here_sound (at_start : bool) (s k rest : string)
  (arg : option string) :
  match_here at_start s = Some (k, arg, rest) ->
  In (toLowerCase k) directive_kinds
  /\ (forall a, arg = Some a -> all_chars not_line_terminator a = true).
Proof.
  unfold match_here.
  destruct (if at_start then directive_here s else None)
    as [[[k' arg'] rest']|] eqn:E.
  - intros [= <- <- <-]. destruct at_start; [|discriminate].
    now apply directive_here_sound in E.
  - destruct s as [|c s]; [discriminate|].
    destruct (is_space c); [|discriminate]. apply directive_here_sound.
Qed.

Lemma matchAll_sound (s : string) :
  forall (skip : nat) (at_start : bool) (a : ParsedAnnotation),
    In a (matchAll skip at_start s) ->
    In (annotation a) directive_kinds
    /\ (forall arg, typeArgument a = Some arg ->
                    all_chars not_line_terminator arg = true).
Proof.
  induction s as [|c s IH]; intros skip at_start a; cbn [matchAll];
    [intros []|].
  destruct skip as [|skip]; [|apply IH].
  destruct (match_here at_start (String c s)) as [[[k arg] rest]|] eqn:E;
    [|apply IH].
  intros [<- | Hin]; [|now apply IH in Hin].
  cbn [annotation typeArgument]. now apply match_here_sound in E.
Qed.

(** Every annotation parsed from a comment has one of the four kinds, in
    lower case, and an argument that holds no line terminator. *)
Theorem parsed_annotations_well_formed (col : ColumnRow)
  (a : ParsedAnnotation) :
  In a (typeAnnotations col) ->
  In (annotation a) directive_kinds
  /\ (forall arg, typeArgument a = Some arg ->
                  all_chars not_line_terminator arg = true).
Proof. unfold typeAnnotations. apply matchAll_sound. Qed.

Lemma all_chars_ltrim (p : ascii -> bool) (s : string) :
  all_chars p s = true -> all_chars p (ltrim s) = true.
Proof.
  induction s as [|c s IH]; cbn; [reflexivity|].
  intros H. apply andb_true_iff in H as [Hc Hs].
  destruct (is_space c); [now apply IH|]. cbn. now rewrite Hc, Hs.
Qed.

Lemma directive_here_no_at (s : string) :
  all_chars not_at_sign s = true -> directive_here s = None.
Proof.
  destruct s as [|c s]; cbn; [reflexivity|].
  unfold not_at_sign at 1. now destruct (Ascii.eqb c "@").
Qed.

Lemma matchAll_no_at (s : string) :
  forall (skip : nat) (at_start : bool),
    all_chars not_at_sign s = true -> matchAll skip at_start s = [].
Proof.
  induction s as [|c s IH]; intros skip at_start H; [reflexivity|].
  cbn [matchAll]. pose proof H as H'. cbn in H'.
  apply andb_true_iff in H' as [_ Hs].
  destruct skip as [|skip]; [|now apply IH].
  unfold match_here. rewrite (directive_here_no_at _ H).
  rewrite (directive_here_no_at _ (all_chars_ltrim _ _ H)).
  destruct at_start, (is_space c); now apply IH.
Qed.

Lemma eq_ci_at (c : ascii) : eq_ci c "@" = true -> c = "@"%char.
Proof. intros H. apply eq_ci_spec in H. now apply to_lower_at. Qed.

Lemma annotation_here_no_at (kind s : string) :
  all_chars not_at_sign s = true -> annotation_here kind s = false.
Proof.
  destruct s as [|c s]; [reflexivity|]. intros H.
  unfold annotation_here. cbn [starts_with_ci].
  destruct (eq_ci c "@") eqn:E; [|reflexivity].
  apply eq_ci_at in E as ->. discriminate H.
Qed.

Lemma annotation_scan_no_at (kind s : string) :
  all_chars not_at_sign s = true -> annotation_scan kind s = false.
Proof.
  induction s as [|c s IH]; [reflexivity|]. cbn. intros H.
  apply andb_true_iff in H as [_ Hs].
  now rewrite (annotation_here_no_at kind s Hs), IH, andb_false_r.
Qed.

(** A comment without an at sign holds no directive for either parser: the
    class parses no annotation from it, and the settings-aware parser
    recognises none, whatever the directive name without expression syntax
    it is asked for. *)
Theorem no_at_sign_no_directive (col : ColumnRow) :
  all_chars not_at_sign (Comment_ col) = true ->
  typeAnnotations col = []
  /\ bigIntAnnotation col = None /\ setAnnotation col = None
  /\ (forall kind, plain_pattern kind = true ->
                   Parse.hasColumnCommentAnnotation kind col = false).
Proof.
  intros H.
  assert (Ha : typeAnnotations col = [])
    by (unfold typeAnnotations; now apply matchAll_no_at).
  split; [exact Ha|].
  unfold bigIntAnnotation, setAnnotation, find_annotation. rewrite Ha.
  split; [reflexivity|]. split; [reflexivity|].
  intros kind _. unfold Parse.hasColumnCommentAnnotation.
  now rewrite annotation_here_no_at, annotation_scan_no_at.
Qed.

Variable MYSQL_TYPES : list string.
Variable getParenthesizedArgs : string -> string -> string.

Lemma require_argument_usable (o : option ParsedAnnotation)
  (a : ParsedAnnotation) :
  require_argument o = Some a ->
  exists arg, typeArgument a = Some arg /\ is_empty arg = false
              /\ is_empty (trim arg) = false.
Proof.
  destruct o as [b|]; [|discriminate]. cbn. unfold usable_argument.
  destruct (typeArgument b) as [arg|] eqn:E; [|discriminate].
  destruct (is_empty arg) eqn:E1; [discriminate|].
  destruct (is_empty (trim arg)) eqn:E2; [discriminate|].
  intros [= <-]. exists arg. repeat split; assumption.
Qed.

Lemma not_empty (s : string) : is_empty s = false -> s <> "".
Proof. destruct s; [discriminate | discriminate]. Qed.

Lemma field_type_not_empty (col : ColumnRow) :
  javascriptType MYSQL_TYPES getParenthesizedArgs col <> "".
Proof.
  unfold javascriptType.
  destruct (castType MYSQL_TYPES getParenthesizedArgs col).
  1: { unfold jsonAnnotation.
       destruct (require_argument (find_annotation col "json")) as [a|] eqn:E;
         [|discriminate].
       apply require_argument_usable in E as (arg & Ha & _ & Ht).
       unfold argument_text. rewrite Ha. now apply not_empty. }
  6: { destruct (require_argument (setAnnotation col)); [discriminate|].
       cbv zeta. destruct (is_empty _); discriminate. }
  all: destruct (base_is MYSQL_TYPES col "enum"); try discriminate;
    unfold enumAnnotation;
    (destruct (require_argument (find_annotation col "enum")) as [a|] eqn:E;
     [apply require_argument_usable in E as (arg & Ha & Hn & _);
      unfold argument_text; rewrite Ha; now apply not_empty
     |cbv zeta;
      destruct (is_empty (literal_union _)) eqn:E'; [discriminate|];
      now apply not_empty]).
Qed.

(** The class never yields the empty string as a type, whatever the column,
    its comment and the vocabulary. *)
Theorem field_type_never_empty (col : ColumnRow) :
  is_empty (javascriptType MYSQL_TYPES getParenthesizedArgs col) = false.
Proof.
  pose proof (field_type_not_empty col) as H.
  destruct (javascriptType MYSQL_TYPES getParenthesizedArgs col);
    [contradiction | reflexivity].
Qed.

(** Which columns the class casts as json, bigint, set or boolean: the cast
    kinds bigint and set need the column type and the annotation together. *)
Theorem field_cast_kind_inversion (col : ColumnRow) :
  let ct := castType MYSQL_TYPES getParenthesizedArgs col in
  let base := mysqlBaseType MYSQL_TYPES col in
  (ct = CT_json <-> base = Some "json")
  /\ (ct = CT_bigint <-> base = Some "bigint" /\ bigIntAnnotation col <> None)
  /\ (ct = CT_set <-> base = Some "set" /\ setAnnotation col <> None)
  /\ (ct = CT_boolean
      <-> isTinyIntOne MYSQL_TYPES getParenthesizedArgs col = true
          \/ base = Some "bool" \/ base = Some "boolean").
Proof.
  unfold castType, isTinyIntOne, base_is.
  destruct (mysqlBaseType MYSQL_TYPES col) as [b|].
  2: { cbn. repeat split; intros; try discriminate;
       repeat match goal with
              | H : _ /\ _ |- _ => destruct H
              | H : _ \/ _ |- _ => destruct H
              end; discriminate. }
  split_on_type b;
    repeat match goal with
           | |- context [bigIntAnnotation col] => destruct (bigIntAnnotation col)
           | |- context [setAnnotation col] => destruct (setAnnotation col)
           | |- context [String.eqb ?x "1"] => destruct (String.eqb x "1")
           end; cbn [andb orb];
    repeat split; intros; try discriminate; try reflexivity;
    repeat match goal with
           | H : _ /\ _ |- _ => destruct H
           | H : _ \/ _ |- _ => destruct H
           end; try discriminate; try congruence; auto.
Qed.

End MoreFieldFacts.

(** ** The two resolvers compared, and the remaining getters *)

Section Agreement.
Import Js Utils Pred.

(** On a shared vocabulary the two resolvers give the same cast kind for
    every column whose base type is none of bigint, set, enum, bool and
    boolean, as long as [typeTinyIntOneAsBoolean] is not [false]. *)
Theorem resolvers_agree (types : list string) (camelCase : string -> string)
  (col : ColumnRow) (settings : Parse.Settings) :
  ~ In (Acli.mysqlBaseType types col)
       [Some "bigint"; Some "set"; Some "enum"; Some "bool"; Some "boolean"] ->
  Parse.typeTinyIntOneAsBoolean settings <> Some false ->
  Acli.castType types getParenthesizedArgs col
  = Api.castType (Parse.parseFieldDefinition types camelCase col settings).
Proof.
  intros Hbase Hflag. rewrite castType_parse.
  change (Parse.getFieldKnownMySQLType types col)
    with (Acli.mysqlBaseType types col).
  unfold Acli.castType, Acli.isTinyIntOne, Acli.base_is,
    Parse.getFieldCastType, Parse.includes.
  destruct (Acli.mysqlBaseType types col) as [b|]; [|reflexivity].
  destruct b as [|c0 b0]; [reflexivity|].
  cbn [is_empty]. remember (String c0 b0) as b eqn:Hb. clear Hb c0 b0.
  split_on_type b;
    try (exfalso; apply Hbase; cbn; tauto);
    try congruence;
    repeat match goal with
           | |- context [String.eqb ?x "1"] => destruct (String.eqb x "1")
           end; cbn [andb orb];
    try reflexivity;
    destruct (Parse.typeTinyIntOneAsBoolean settings) as [[]|];
    try reflexivity; congruence.
Qed.

(** [defaultValue] is [undefined] exactly when the column has no default; a
    column that has one yields its [Default], which is then a string or
    [null]. *)
Theorem default_value_defined (col : ColumnRow) :
  (Acli.defaultValue col = None <-> Acli.hasDefault col = false)
  /\ (Acli.hasDefault col = true -> Acli.defaultValue col = Default_ col)
  /\ (Acli.defaultValue col = Some None -> Acli.isNullable col = true).
Proof.
  unfold Acli.defaultValue, Acli.hasDefault.
  destruct (Default_ col) as [[d|]|]; cbn;
    destruct (Acli.isNullable col); cbn;
    repeat split; intros; try discriminate; try reflexivity.
Qed.

End Agreement.

(** ** The runtime: the remaining methods *)

Section MoreRuntimeFacts.
Import Db Pred.

Variable World : Type.
Variable conn_execute :
  Sql -> option CustomModelCast -> World -> World * (Thrown + ExecutedQuery).
Variable now : World -> Z.
Variable WhereInput OrderByInput : Type.
Variable bt : list string -> Sql.
Variable getWhere : option WhereInput -> string -> Thrown + Sql.
Variable getOrderBy : option OrderByInput -> string -> Thrown + Sql.
Variable getLimitOffset : option OneBasedPagingInput -> Thrown + Sql.
Variable JSON_stringify : JsVal -> Thrown + JsVal.
Variable gt_max_safe_other : JsVal -> bool.
Variable Number_other : JsVal -> JsVal.
Variable join_of_nothing : Thrown + Sql.
Variable loggingOptions : DbLoggingOptions World.
Variable model : Api.ModelDefinition.

Local Abbreviation run_execute :=
  (execute World conn_execute now loggingOptions).
Local Abbreviation run_findMany :=
  (findMany World conn_execute now WhereInput OrderByInput bt getWhere
     getOrderBy getLimitOffset loggingOptions model join_of_nothing).
Local Abbreviation run_findFirst :=
  (findFirst World conn_execute now WhereInput OrderByInput bt getWhere
     getOrderBy getLimitOffset loggingOptions model join_of_nothing).
Local Abbreviation run_findFirstOrThrow :=
  (findFirstOrThrow World conn_execute now WhereInput OrderByInput bt getWhere
     getOrderBy getLimitOffset loggingOptions model join_of_nothing).
Local Abbreviation run_countBigInt :=
  (countBigInt World conn_execute now WhereInput bt getWhere loggingOptions
     model).
Local Abbreviation run_count :=
  (count World conn_execute now WhereInput bt getWhere gt_max_safe_other
     Number_other loggingOptions model).
Local Abbreviation run_create :=
  (create World conn_execute now bt JSON_stringify loggingOptions model).
Local Abbreviation run_updateWhere :=
  (updateWhere World conn_execute now WhereInput bt getWhere JSON_stringify
     loggingOptions model join_of_nothing).
Local Abbreviation run_deleteWhere :=
  (deleteWhere World conn_execute now WhereInput bt getWhere loggingOptions
     model).

(** Whatever the transport and the hooks do, [execute] hands its statement
    to the transport exactly once. *)
Theorem execute_sends_once (query : Sql) (cast : option CustomModelCast)
  (e : Env World) :
  sent World (fst (run_execute query cast e)) = query :: sent World e.
Proof.
  unfold execute, try_catch, bind, read_clock, call_transport, call_hook,
    ret, throw. cbn.
  destruct (conn_execute query cast (world World e)) as [w1 [t|r]]; cbn.
  - destruct (errorLogger World loggingOptions _ w1) as [w2 [t'|]];
      reflexivity.
  - destruct (performanceLogger World loggingOptions r _ w1) as [w2 [t|]];
      cbn; [|reflexivity].
    destruct (errorLogger World loggingOptions _ w2) as [w3 [t'|]];
      reflexivity.
Qed.

(** A performance hook that throws turns an executed statement into a
    failure.  With both hooks injected: when the transport returns and the
    performance hook throws [t], the injected error hook is called on the
    [ExecuteError] that carries [t] and the statement, in the world the
    performance hook left, and the caller gets the fixed error although the
    transport returned. *)
Theorem failing_performance_hook
  (perf : ExecutedQuery -> Z -> World -> World * option Thrown)
  (hook : ExecuteError -> World -> World * option Thrown)
  (query : Sql) (cast : option CustomModelCast) (e : Env World)
  (w1 w2 w3 : World) (r : ExecutedQuery) (t : Thrown) :
  performanceLoggerOption World loggingOptions = Some perf ->
  errorLoggerOption World loggingOptions = Some hook ->
  conn_execute query cast (world World e) = (w1, inr r) ->
  perf r (now w1 - now (world World e))%Z w1 = (w2, Some t) ->
  hook (mkExecuteError
          (match t with ErrorObj m => m | ThrownValue _ => "unkown error" end)
          t query) w2
  = (w3, None) ->
  run_execute query cast e
  = (mkEnv World w3 (query :: sent World e), inl internal_error).
Proof.
  intros Hperf Hhook Ht Hp Hl.
  unfold execute, try_catch, bind, read_clock, call_transport, call_hook,
    ret, throw, performanceLogger, errorLogger. cbn.
  rewrite Hperf, Hhook, Ht. cbn. rewrite Hp. cbn.
  unfold newExecuteError. now rewrite Hl.
Qed.

(** Without an error hook nothing but the fixed error ever leaves
    [execute]: it returns what the transport returned or throws
    [Internal server error.]. *)
Theorem execute_never_leaks (query : Sql) (cast : option CustomModelCast)
  (e : Env World) :
  errorLoggerOption World loggingOptions = None ->
  (exists r, snd (run_execute query cast e) = inr r)
  \/ snd (run_execute query cast e) = inl internal_error.
Proof.
  intros Hnone.
  unfold execute, try_catch, bind, read_clock, call_transport, call_hook,
    ret, throw, errorLogger. rewrite Hnone. cbn.
  destruct (conn_execute query cast (world World e)) as [w1 [t|r]]; cbn.
  - now right.
  - destruct (performanceLogger World loggingOptions r _ w1) as [w2 [t|]];
      cbn; [now right | left; now exists r].
Qed.

(** When the transport returns no row, [countBigInt] returns [0n] and
    [count] returns zero. *)
Theorem count_of_no_rows (where_in : option WhereInput) (where_ : Sql)
  (e : Env World) (w1 w2 : World) (r : ExecutedQuery) :
  getWhere where_in (Api.tableName model) = inr where_ ->
  conn_execute (countQuery bt model where_) (Some [("ct", CT_bigint)])
    (world World e) = (w1, inr r) ->
  performanceLogger World loggingOptions r (now w1 - now (world World e)) w1
  = (w2, None) ->
  rows r = [] ->
  let e' := mkEnv World w2 (countQuery bt model where_ :: sent World e) in
  run_countBigInt where_in e = (e', inr (VBigInt 0))
  /\ run_count where_in e = (e', inr (VNumber 0)).
Proof.
  intros Hw Ht Hl Hrows e'.
  assert (Hbig : run_countBigInt where_in e = (e', inr (VBigInt 0))).
  { unfold countBigInt, bind, lift, tableName. rewrite Hw.
    rewrite (executeSelect_returns _ conn_execute now loggingOptions
               _ _ e w1 w2 r Ht Hl). cbn. now rewrite Hrows. }
  split; [exact Hbig|]. unfold count, bind. now rewrite Hbig.
Qed.

Lemma key_is_selectable (k : string) :
  In k (keys model) -> exists part, getSelectForFieldName bt model k = inr part.
Proof.
  intros Hin. unfold getSelectForFieldName.
  destruct (List.find _ (fields model)) as [f|] eqn:E; [eauto|].
  exfalso. apply in_map_iff in Hin as (f & Hf & Hin).
  apply (List.find_none _ _ E) in Hin. cbn in Hin.
  rewrite Hf, String.eqb_refl in Hin. discriminate Hin.
Qed.

Lemma map_throwing_total {A B} (f : A -> Thrown + B) (l : list A) :
  (forall a, In a l -> exists b, f a = inr b) ->
  exists bs, map_throwing f l = inr bs /\ List.length bs = List.length l.
Proof.
  induction l as [|a l IH]; intros H; cbn; [now exists []|].
  destruct (H a) as [b Hb]; [now left|]. rewrite Hb.
  destruct IH as (bs & Hbs & Hlen); [intros x Hx; apply H; now right|].
  rewrite Hbs. exists (b :: bs). cbn. now rewrite Hlen.
Qed.

(** Selecting ['all'] never fails the validation of names: every key of the
    model is selectable, and the column list has one entry for each field. *)
Theorem select_all_is_valid :
  exists parts,
    map_throwing (getSelectForFieldName bt model) (keys model) = inr parts
    /\ List.length parts = List.length (Api.fields model).
Proof.
  destruct (map_throwing_total (getSelectForFieldName bt model) (keys model))
    as (parts & Hm & Hlen); [intros k Hk; now apply key_is_selectable|].
  exists parts. split; [exact Hm|].
  rewrite Hlen. unfold keys, fields. now rewrite length_map.
Qed.

(** [findFirst] runs [findMany] with the paging forced to page 1 of 1 row
    and keeps the first row; [findFirstOrThrow] passes on what [findMany]
    throws, throws the not-found error when no row comes back and returns
    the first row otherwise. *)
Theorem findFirstOrThrow_outcomes (input : FindManyInput WhereInput OrderByInput)
  (e : Env World) :
  let forced :=
    mkFindManyInput _ _ (fm_where _ _ input) (Some (mkPaging 1 1))
      (fm_orderBy _ _ input) (fm_select _ _ input) in
  run_findFirstOrThrow input e
  = match run_findMany forced e with
    | (e', inl t) => (e', inl t)
    | (e', inr []) => (e', inl not_found)
    | (e', inr (row :: _)) => (e', inr row)
    end
  /\ run_findFirst input e
     = match run_findMany forced e with
       | (e', inl t) => (e', inl t)
       | (e', inr found) => (e', inr (List.head found))
       end.
Proof.
  intros forced. unfold findFirstOrThrow, findFirst, bind. fold forced.
  destruct (run_findMany forced e) as [e' [t|[|row found]]]; split; reflexivity.
Qed.

(** The constructor picks a model that bears the requested name, and
    throws exactly when the schema has none. *)
Theorem findModel_outcomes (name : string)
  (models : list Api.ModelDefinition) :
  (forall m, findModel name models = inr m ->
             In m models /\ Api.modelName m = name)
  /\ ((forall m, In m models -> Api.modelName m <> name)
      <-> findModel name models
          = inl (ErrorObj ("Model " +:+ name +:+ " not found in schema."))).
Proof.
  unfold findModel.
  destruct (List.find _ models) as [found|] eqn:E.
  - apply List.find_some in E as [Hin Hname]. apply String.eqb_eq in Hname.
    split.
    + intros m [= <-]. split; assumption.
    + split; [|discriminate]. intros H. exfalso. now apply (H found).
  - split; [discriminate|]. split; [reflexivity|]. intros _ m Hin Hname.
    apply (List.find_none _ _ E) in Hin. cbn in Hin.
    rewrite Hname, String.eqb_refl in Hin. discriminate Hin.
Qed.

Lemma sql_text_app (a b : Sql) :
  sql_text (a ++ b)%list = sql_text a +:+ sql_text b.
Proof.
  induction a as [|[text|v] a IH]; cbn [sql_text app]; [reflexivity| |].
  - now rewrite IH, append_assoc.
  - now rewrite IH.
Qed.

Lemma sql_values_app (a b : Sql) :
  sql_values (a ++ b)%list = (sql_values a ++ sql_values b)%list.
Proof.
  induction a as [|[text|v] a IH]; cbn [sql_values app]; [reflexivity| |].
  - exact IH.
  - now rewrite IH.
Qed.

Lemma keys_of_kind (kind : CastType) (k : string) :
  includes
    (List.map Api.fieldName (List.filter (is_cast kind) (Api.fields model))) k
  = true
  <-> has_field_of_kind model kind k.
Proof.
  unfold includes, has_field_of_kind. rewrite existsb_exists. split.
  - intros (x & Hin & Heq). apply String.eqb_eq in Heq. subst x.
    apply in_map_iff in Hin as (f & Hname & Hf).
    apply filter_In in Hf as [Hf Hkind].
    unfold is_cast in Hkind. apply bool_decide_eq_true_1 in Hkind.
    exists f. split; [assumption | split; assumption].
  - intros (f & Hf & Hname & Hkind). exists k.
    split; [|apply String.eqb_refl].
    apply in_map_iff. exists f. split; [assumption|].
    apply filter_In. split; [assumption|].
    unfold is_cast. now apply bool_decide_eq_true_2.
Qed.

(** How [create] and [updateWhere] encode the value of a key, and that they
    encode it alike.  [null] is written as the keyword [NULL] and binds
    nothing.  For a key of a field cast as json the bound value is the text
    of [JSON.stringify], and what [JSON.stringify] throws is thrown.  For a
    key of a field cast as set (and of no json field) a [Set] is bound as
    its members joined by commas.  Every other value is bound as it is.  In
    each case the assignment of [updateWhere] is the quoted column, an
    equals sign and what [create] inserts, and either both throw the same
    or neither does. *)
Theorem update_encodes_like_create (k : string) (v : JsVal) :
  let column := bt [Api.tableName model; k] in
  let inserted := insertValue JSON_stringify model k v in
  let assigned := updateAssignment bt JSON_stringify model k v in
  (v = VNull ->
   inserted = inr [Raw "NULL"]
   /\ assigned = inr (column ++ [Raw " = NULL"])%list)
  /\ (v <> VNull -> has_field_of_kind model CT_json k ->
      (forall text, JSON_stringify v = inr text ->
                    inserted = inr [Bound text]
                    /\ assigned = inr (column ++ [Raw " = "; Bound text])%list)
      /\ (forall t, JSON_stringify v = inl t ->
                    inserted = inl t /\ assigned = inl t))
  /\ (~ has_field_of_kind model CT_json k ->
      has_field_of_kind model CT_set k ->
      forall members, v = VSet members ->
        inserted = inr [Bound (VString (Js.join "," members))]
        /\ assigned
           = inr (column
                  ++ [Raw " = "; Bound (VString (Js.join "," members))])%list)
  /\ (v <> VNull -> ~ has_field_of_kind model CT_json k ->
      (~ has_field_of_kind model CT_set k \/ forall members, v <> VSet members) ->
      inserted = inr [Bound v]
      /\ assigned = inr (column ++ [Raw " = "; Bound v])%list)
  /\ match inserted, assigned with
     | inr values, inr assignment =>
         sql_text assignment
         = sql_text column +:+ " = " +:+ sql_text values
         /\ sql_values assignment
            = (sql_values column ++ sql_values values)%list
     | inl t, inl t' => t = t'
     | _, _ => False
     end.
Proof.
  intros column inserted assigned.
  subst column inserted assigned.
  assert (Hjson : includes (jsonKeys model) k = true
                  <-> has_field_of_kind model CT_json k)
    by apply keys_of_kind.
  assert (Hset : includes (setKeys model) k = true
                 <-> has_field_of_kind model CT_set k)
    by apply keys_of_kind.
  assert (Hnot : forall kind l,
             (includes l k = true <-> has_field_of_kind model kind k) ->
             ~ has_field_of_kind model kind k -> includes l k = false).
  { intros kind l H Hn. destruct (includes l k); [|reflexivity].
    exfalso. apply Hn, H. reflexivity. }
  unfold insertValue, updateAssignment, tableName.
  split; [|split; [|split; [|split]]].
  - intros ->. split; reflexivity.
  - intros Hv Hj. apply Hjson in Hj. rewrite Hj.
    split; [intros text Hs | intros t Hs]; rewrite Hs;
      destruct v; try contradiction; split; reflexivity.
  - intros Hnj Hs members ->.
    rewrite (Hnot CT_json _ Hjson Hnj). apply Hset in Hs. rewrite Hs.
    split; reflexivity.
  - intros Hv Hnj Hor. rewrite (Hnot CT_json _ Hjson Hnj).
    destruct v; try contradiction; try (split; reflexivity).
    destruct Hor as [Hns | Hnv].
    + rewrite (Hnot CT_set _ Hset Hns). split; reflexivity.
    + exfalso. now apply (Hnv members).
  - destruct v;
      try (destruct (includes (jsonKeys model) k);
           [destruct (JSON_stringify _) as [t|text]|];
           try destruct (includes (setKeys model) k));
      rewrite ?sql_text_app, ?sql_values_app; cbn; auto.
Qed.

Lemma sql_values_join (parts : list Sql) (sep : string) :
  sql_values (join parts sep) = concat (List.map sql_values parts).
Proof.
  induction parts as [|p [|q rest] IH]; [reflexivity | |].
  - cbn. now rewrite app_nil_r.
  - change (join (p :: q :: rest) sep)
      with (p ++ Raw sep :: join (q :: rest) sep)%list.
    rewrite sql_values_app. cbn [sql_values]. rewrite IH. reflexivity.
Qed.

Lemma insertValue_binds (k : string) (v : JsVal) (part : Sql) :
  insertValue JSON_stringify model k v = inr part ->
  List.length (sql_values part) = if is_null v then 0%nat else 1%nat.
Proof.
  unfold insertValue.
  destruct v;
    try (destruct (includes (jsonKeys model) k);
         [destruct (JSON_stringify _) as [t|text]|];
         try destruct (includes (setKeys model) k));
    intros [= <-]; reflexivity.
Qed.

Lemma inserted_values_count (data : list (string * JsVal)) :
  forall vals,
    map_throwing (fun kv => insertValue JSON_stringify model (fst kv) (snd kv))
      data = inr vals ->
    List.length (concat (List.map sql_values vals))
    = List.length (List.filter (fun kv => negb (is_null (snd kv))) data).
Proof.
  induction data as [|[k v] data IH]; intros vals; cbn [map_throwing].
  - now intros [= <-].
  - cbn [fst snd].
    destruct (insertValue JSON_stringify model k v) as [t|part] eqn:E;
      [discriminate|].
    destruct (map_throwing _ data) as [t|rest]; [discriminate|].
    intros [= <-]. cbn [List.map concat List.filter snd].
    rewrite length_app, (IH rest eq_refl), (insertValue_binds k v part E).
    destruct (is_null v); reflexivity.
Qed.

(** The statement of [create] binds one value for each entry of [data] that
    is not [null], and none for the others, provided quoted identifiers bind
    nothing. *)
Theorem insert_binds_non_null_values (data : list (string * JsVal))
  (vals : list Sql) :
  (forall names, binds_nothing (bt names)) ->
  map_throwing (fun kv => insertValue JSON_stringify model (fst kv) (snd kv))
    data = inr vals ->
  List.length
    (sql_values
       (insertQuery bt model
          (List.map (fun kv => bt [Api.tableName model; fst kv]) data) vals))
  = List.length (List.filter (fun kv => negb (is_null (snd kv))) data).
Proof.
  intros Hbt Hv. unfold insertQuery, tableName.
  assert (Hnames : forall l : list (string * JsVal),
             concat (List.map sql_values
                       (List.map (fun kv => bt [Api.tableName model; fst kv]) l))
             = []).
  { induction l as [|kv l IHl]; [reflexivity|]. cbn.
    now rewrite (Hbt [Api.tableName model; fst kv]), IHl. }
  cbn [sql_values]. rewrite !sql_values_app. cbn [sql_values].
  rewrite !sql_values_app, !sql_values_join, Hnames, (Hbt [Api.tableName model]).
  cbn [sql_values app]. rewrite sql_values_app, sql_values_join.
  cbn [sql_values]. rewrite app_nil_r.
  now apply inserted_values_count.
Qed.

(** What the where helper throws reaches the caller as it is, not as the
    fixed error of the transport, and nothing is executed. *)
Theorem where_failure_passes_through (where_in : option WhereInput)
  (t : Thrown) (e : Env World) :
  getWhere where_in (Api.tableName model) = inl t ->
  (forall input, fm_where _ _ input = where_in ->
                 run_findMany input e = (e, inl t))
  /\ run_countBigInt where_in e = (e, inl t)
  /\ run_count where_in e = (e, inl t)
  /\ run_deleteWhere where_in e = (e, inl t).
Proof.
  intros Hw. repeat split.
  - intros input <-. unfold findMany, bind, lift, tableName. now rewrite Hw.
  - unfold countBigInt, bind, lift, tableName. now rewrite Hw.
  - unfold count, countBigInt, bind, lift, tableName. now rewrite Hw.
  - unfold deleteWhere, bind, lift, tableName. now rewrite Hw.
Qed.

(** With no key in [data], [updateWhere] calls [join] on an empty array:
    when [join] refuses it, the call throws that error before the where
    helper runs and before anything is executed.  [create] guards the same
    call and sends an insert with empty lists. *)
Theorem empty_data_update_and_create (where_in : option WhereInput)
  (t : Thrown) (e : Env World) :
  join_of_nothing = inl t ->
  run_updateWhere [] where_in e = (e, inl t)
  /\ sent World (fst (run_create [] e))
     = insertQuery bt model [] [] :: sent World e
  /\ sql_text (insertQuery bt model [] [])
     = "INSERT INTO " +:+ sql_text (bt [Api.tableName model])
       +:+ " () VALUES ()".
Proof.
  intros Hj. split; [|split].
  - unfold updateWhere, bind, lift, join_array. cbn. now rewrite Hj.
  - unfold create, bind, lift. cbn [map_throwing List.map].
    destruct (run_execute _ None e) as [e' [t'|r]] eqn:Ex;
      pose proof (execute_sends_once (insertQuery bt model [] []) None e) as Hs;
      rewrite Ex in Hs; cbn in Hs.
    + exact Hs.
    + destruct (autoIncrementingPrimaryKey model) as [[|c n]|]; exact Hs.
  - unfold insertQuery, tableName. cbn [join].
    cbn [sql_text]. rewrite sql_text_app. reflexivity.
Qed.

Lemma quiet_lift {A} (r : Thrown + A) : quiet (lift World r).
Proof. intros e. reflexivity. Qed.

Lemma quiet_ret {A} (a : A) : quiet (ret World a).
Proof. intros e. reflexivity. Qed.

Lemma quiet_throw {A} (t : Thrown) : quiet (@throw World A t).
Proof. intros e. reflexivity. Qed.

Lemma at_most_one_after_quiet {A B} (m : M World A) (f : A -> M World B) :
  quiet m -> (forall a, at_most_one (f a)) -> at_most_one (bind World m f).
Proof.
  intros Hq Hf e. unfold bind. pose proof (Hq e) as He.
  destruct (m e) as [e' [t|a]]; cbn in He; subst e'; [now left | apply Hf].
Qed.

Lemma at_most_one_then_quiet {A B} (m : M World A) (f : A -> M World B) :
  at_most_one m -> (forall a, quiet (f a)) -> at_most_one (bind World m f).
Proof.
  intros Hm Hf e. unfold bind. pose proof (Hm e) as He.
  destruct (m e) as [e' [t|a]]; cbn in He; [exact He|].
  now rewrite (Hf a e').
Qed.

Lemma execute_at_most_one (query : Sql) (cast : option CustomModelCast) :
  at_most_one (run_execute query cast).
Proof. intros e. right. exists query. apply execute_sends_once. Qed.

Lemma executeSelect_at_most_one (query : Sql)
  (cast : option CustomModelCast) :
  at_most_one (executeSelect World conn_execute now loggingOptions query cast).
Proof.
  apply at_most_one_then_quiet; [apply execute_at_most_one|].
  intros a. apply quiet_ret.
Qed.

Ltac through_helpers :=
  repeat (apply at_most_one_after_quiet; [apply quiet_lift | intros ?]).

(** No method hands more than one statement to the transport, whatever its
    input and whatever is thrown on the way. *)
Theorem methods_send_at_most_one
  (input : FindManyInput WhereInput OrderByInput)
  (where_in : option WhereInput) (data : list (string * JsVal)) :
  at_most_one (run_findMany input)
  /\ at_most_one (run_findFirst input)
  /\ at_most_one (run_findFirstOrThrow input)
  /\ at_most_one (run_countBigInt where_in)
  /\ at_most_one (run_count where_in)
  /\ at_most_one (run_create data)
  /\ at_most_one (run_updateWhere data where_in)
  /\ at_most_one (run_deleteWhere where_in).
Proof.
  assert (Hmany : forall i, at_most_one (run_findMany i)).
  { intros i. unfold findMany. through_helpers.
    apply at_most_one_then_quiet; [apply executeSelect_at_most_one|].
    intros ?. apply quiet_ret. }
  assert (Hfirst : forall i, at_most_one (run_findFirst i)).
  { intros i. unfold findFirst.
    apply at_most_one_then_quiet; [apply Hmany | intros ?; apply quiet_ret]. }
  assert (Hbig : at_most_one (run_countBigInt where_in)).
  { unfold countBigInt. through_helpers.
    apply at_most_one_then_quiet; [apply executeSelect_at_most_one|].
    intros ?. apply quiet_ret. }
  repeat split.
  - apply Hmany.
  - apply Hfirst.
  - unfold findFirstOrThrow.
    apply at_most_one_then_quiet; [apply Hfirst|].
    intros [row|]; [apply quiet_ret | apply quiet_throw].
  - exact Hbig.
  - unfold count. apply at_most_one_then_quiet; [exact Hbig|].
    intros ct. destruct (match ct with VBigInt z => _ | _ => _ end);
      [apply quiet_throw | apply quiet_ret].
  - unfold create. through_helpers.
    apply at_most_one_then_quiet; [apply execute_at_most_one|].
    intros ?. destruct (autoIncrementingPrimaryKey model) as [[|c n]|];
      apply quiet_ret.
  - unfold updateWhere. through_helpers. apply execute_at_most_one.
  - unfold deleteWhere. through_helpers. apply execute_at_most_one.
Qed.

End MoreRuntimeFacts.

(** ** Parsed models and string literals *)

Section ModelFacts.
Import Js Utils ParseModel.

Variable KNOWN_MYSQL_TYPES : list string.
Variable camelCase upperFirst : string -> string.

Lemma filter_of_map {A B} (f : A -> B) (p : B -> bool) (l : list A) :
  List.filter p (List.map f l) = List.map f (List.filter (fun a => p (f a)) l).
Proof.
  induction l as [|a l IH]; [reflexivity|]. cbn.
  destruct (p (f a)); cbn; now rewrite IH.
Qed.

Lemma find_of_map {A B} (f : A -> B) (p : B -> bool) (l : list A) :
  List.find p (List.map f l)
  = option_map f (List.find (fun a => p (f a)) l).
Proof.
  induction l as [|a l IH]; [reflexivity|]. cbn.
  destruct (p (f a)); [reflexivity | exact IH].
Qed.

(** What the runtime reads off a parsed table: its keys are the camel-cased
    column names in column order, its primary keys those of the columns
    whose key is [PRI], and its auto-increment key that of the first column
    whose [Extra] holds the word [auto_increment]. *)
Theorem parsed_model_keys (table : DatabaseTableInfo)
  (settings : Parse.Settings) :
  let model :=
    runtime_model
      (parseModelDefinition KNOWN_MYSQL_TYPES camelCase upperFirst table
         settings) in
  Api.tableName model = name table
  /\ Db.keys model
     = List.map (fun col => camelCase (Field_ col)) (columns table)
  /\ Db.primaryKeys model
     = List.map (fun col => camelCase (Field_ col))
         (List.filter (fun col => String.eqb (Key_ col) "PRI") (columns table))
  /\ Db.autoIncrementingPrimaryKey model
     = option_map (fun col => camelCase (Field_ col))
         (List.find
            (fun col => Parse.test_word ["auto_increment"] (Extra_ col))
            (columns table)).
Proof.
  intros model. split; [reflexivity|].
  unfold Db.keys, Db.primaryKeys, Db.autoIncrementingPrimaryKey, Db.fields.
  cbn [model runtime_model parseModelDefinition Api.fields fields].
  split; [|split].
  - now rewrite List.map_map.
  - now rewrite filter_of_map, List.map_map.
  - rewrite find_of_map. cbn [Api.isAutoIncrement Parse.parseFieldDefinition].
    now destruct (List.find _ (columns table)).
Qed.

Lemma literal_end_shape (q : ascii) (s : string) :
  forall b rest,
    literal_end q s = Some (b, rest) ->
    exists body, b = body +:+ String q "" /\ s = b +:+ rest.
Proof.
  induction s as [s IH] using (well_founded_induction
                                 (well_founded_ltof _ String.length)).
  intros b rest. destruct s as [|c s]; cbn [literal_end]; [discriminate|].
  destruct (Ascii.eqb c q) eqn:Eq.
  - intros [= <- <-]. apply Ascii.eqb_eq in Eq as ->. now exists "".
  - destruct (Ascii.eqb c backslash).
    + destruct s as [|d s]; [discriminate|].
      destruct (literal_end q s) as [[b' rest']|] eqn:E; [|discriminate].
      intros [= <- <-].
      destruct (IH s) with (b := b') (rest := rest') as (body & -> & ->);
        [unfold ltof; cbn; lia | assumption|].
      exists (String c (String d body)). split; reflexivity.
    + destruct (literal_end q s) as [[b' rest']|] eqn:E; [|discriminate].
      intros [= <- <-].
      destruct (IH s) with (b := b') (rest := rest') as (body & -> & ->);
        [unfold ltof; cbn; lia | assumption|].
      exists (String c body). split; reflexivity.
Qed.

Lemma literal_here_shape (s m rest : string) :
  literal_here s = Some (m, rest) ->
  exists q body, (q = double_quote \/ q = single_quote)
                 /\ m = String q (body +:+ String q "").
Proof.
  unfold literal_here. destruct s as [|c s]; [discriminate|].
  destruct (Ascii.eqb c double_quote || Ascii.eqb c single_quote) eqn:Eq;
    [|discriminate].
  destruct (literal_end c s) as [[b rest']|] eqn:E; [|discriminate].
  intros [= <- <-]. apply literal_end_shape in E as (body & -> & _).
  exists c, body. split; [|reflexivity].
  apply orb_true_iff in Eq as [Eq | Eq]; apply Ascii.eqb_eq in Eq; auto.
Qed.

(** Every literal that [getStringLiterals] returns opens with a single or a
    double quote and closes with the same quote. *)
Theorem string_literals_are_quoted (source m : string) :
  In m (getStringLiterals source) ->
  exists q body, (q = double_quote \/ q = single_quote)
                 /\ m = String q (body +:+ String q "").
Proof.
  unfold getStringLiterals. generalize 0%nat as skip.
  induction source as [|c s IH]; intros skip; cbn [literals_from];
    [intros []|].
  destruct skip as [|skip]; [|apply IH].
  destruct (literal_here (String c s)) as [[m' rest]|] eqn:E; [|apply IH].
  intros [<- | Hin]; [now apply literal_here_shape in E | now apply IH in Hin].
Qed.

End ModelFacts.

(** ** Further concrete runs *)

Section MoreRuns.
Import Js Pred Db Sample.

Lemma known_type_in_vocabulary_witness :
  exists ch, In ch SPEC_TYPES /\ "bigint" = toLowerCase ch.
Proof.
  exact (known_type_in_vocabulary SPEC_TYPES
           (column_of "BIGINT unsigned" "") "bigint" eq_refl).
Defined.

Lemma cast_kind_depends_on_type_only_witness :
  Parse.getFieldCastType (column_of "datetime" "@bigint") (Some "datetime")
    Parse.defaultSettings
  = Parse.getFieldCastType (column_of "datetime(6)" "") (Some "datetime")
      (Parse.mkSettings (Some false) (Some false)).
Proof.
  apply (cast_kind_depends_on_type_only (column_of "datetime" "@bigint")
           (column_of "datetime(6)" "") Parse.defaultSettings
           (Parse.mkSettings (Some false) (Some false)) "datetime");
    discriminate.
Defined.

Lemma javascript_type_empty_only_for_json_witness :
  CT_json = CT_json
  /\ Parse.hasColumnCommentAnnotation "json" (column_of "json" "@json") = true
  /\ Utils.getParenthesizedArgs (Comment_ (column_of "json" "@json")) "@json"
     = "".
Proof.
  exact (javascript_type_empty_only_for_json (column_of "json" "@json")
           CT_json eq_refl).
Defined.

Lemma getParenthesizedArgs_sound_witness :
  exists pre post,
    "tinyint(1) unsigned" = pre +:+ String "(" ("1" +:+ String ")" post)
    /\ space_or_end post = true
    /\ all_chars not_line_terminator "1" = true.
Proof.
  apply (getParenthesizedArgs_sound "tinyint(1) unsigned" "tinyint" "1");
    [reflexivity | reflexivity | discriminate].
Defined.

Lemma directive_recognised_iff_witness :
  Parse.hasColumnCommentAnnotation "bigint"
    (column_of "bigint" "number of cats @BigInt(n)") = true
  /\ directive_present "bigint" "number of cats @BigInt(n)"
  /\ Parse.hasColumnCommentAnnotation "bigint"
       (column_of "bigint" "number of cats @bigints") = false
  /\ ~ directive_present "bigint" "number of cats @bigints".
Proof.
  pose proof (directive_recognised_iff "bigint"
                (column_of "bigint" "number of cats @BigInt(n)") eq_refl)
    as Hyes.
  pose proof (directive_recognised_iff "bigint"
                (column_of "bigint" "number of cats @bigints") eq_refl)
    as Hno.
  split; [reflexivity|]. split; [exact (proj1 Hyes eq_refl)|].
  split; [reflexivity|]. intros H. apply (proj2 Hno) in H. discriminate H.
Defined.

Lemma parsed_annotations_well_formed_witness :
  In "set" directive_kinds
  /\ (forall arg, Some "Size" = Some arg ->
                  all_chars not_line_terminator arg = true).
Proof.
  exact (parsed_annotations_well_formed
           (column_of "set('a','b')" "sizes @Set(Size)")
           (Acli.mkAnnotation "@Set(Size)" "set" (Some "Size"))
           (or_introl eq_refl)).
Defined.

Lemma no_at_sign_no_directive_witness :
  Acli.typeAnnotations (column_of "bigint" "number of cats (bigint)") = []
  /\ Acli.bigIntAnnotation (column_of "bigint" "number of cats (bigint)")
     = None
  /\ Acli.setAnnotation (column_of "bigint" "number of cats (bigint)") = None
  /\ (forall kind,
        plain_pattern kind = true ->
        Parse.hasColumnCommentAnnotation kind
          (column_of "bigint" "number of cats (bigint)") = false).
Proof.
  exact (no_at_sign_no_directive
           (column_of "bigint" "number of cats (bigint)") eq_refl).
Defined.

Lemma resolvers_agree_witness :
  Acli.castType SPEC_TYPES Utils.getParenthesizedArgs
    (column_of "tinyint(1) unsigned" "@set")
  = Api.castType
      (Parse.parseFieldDefinition SPEC_TYPES (fun s => s)
         (column_of "tinyint(1) unsigned" "@set") Parse.defaultSettings).
Proof.
  apply (resolvers_agree SPEC_TYPES (fun s => s)
           (column_of "tinyint(1) unsigned" "@set") Parse.defaultSettings).
  - cbn. intros [H | [H | [H | [H | [H | []]]]]]; discriminate H.
  - discriminate.
Defined.

Local Abbreviation inserted := (mkExecutedQuery [] (VString "7")).

(** The recording hook ends up holding what the performance hook threw,
    together with the statement. *)
Lemma failing_performance_hook_witness :
  execute Recording.World (Recording.conn_returning inserted) Recording.now
    (Recording.recording_after (ErrorObj "log disk full"))
    [Raw "SELECT 1"] None Recording.start
  = (mkEnv Recording.World
       [mkExecuteError "log disk full" (ErrorObj "log disk full")
          [Raw "SELECT 1"]]
       [[Raw "SELECT 1"]],
     inl internal_error).
Proof.
  exact (failing_performance_hook Recording.World
           (Recording.conn_returning inserted) Recording.now
           (Recording.recording_after (ErrorObj "log disk full"))
           (Recording.failing_performance (ErrorObj "log disk full"))
           Recording.record_error
           [Raw "SELECT 1"] None Recording.start [] [] _ inserted
           (ErrorObj "log disk full") eq_refl eq_refl eq_refl eq_refl eq_refl).
Defined.

Lemma execute_never_leaks_witness :
  (exists r,
      snd (execute nat (conn_throwing (ErrorObj "access denied for user"))
             now no_logging [Raw "SELECT 1"] None start) = inr r)
  \/ snd (execute nat (conn_throwing (ErrorObj "access denied for user"))
            now no_logging [Raw "SELECT 1"] None start)
     = inl internal_error.
Proof.
  exact (execute_never_leaks nat
           (conn_throwing (ErrorObj "access denied for user")) now no_logging
           [Raw "SELECT 1"] None start eq_refl).
Defined.

Lemma count_of_no_rows_witness :
  snd (countBigInt nat (conn_returning (mkExecutedQuery [] VNull)) now unit bt
         getWhere no_logging user_model None start) = inr (VBigInt 0)
  /\ snd (count nat (conn_returning (mkExecutedQuery [] VNull)) now unit bt
            getWhere gt_max_safe_other Number_other no_logging user_model
            None start) = inr (VNumber 0).
Proof.
  destruct (count_of_no_rows nat (conn_returning (mkExecutedQuery [] VNull))
              now unit bt getWhere gt_max_safe_other Number_other no_logging
              user_model None [] start 1%nat 1%nat
              (mkExecutedQuery [] VNull) eq_refl eq_refl eq_refl eq_refl)
    as [H1 H2].
  split; [now rewrite H1 | now rewrite H2].
Defined.

Lemma size_is_a_set_field : has_field_of_kind shirt_model CT_set "size".
Proof.
  exists (field_of "size" CT_set false false).
  split; [right; left; reflexivity | split; reflexivity].
Qed.

Lemma pricing_is_a_json_field : has_field_of_kind shirt_model CT_json "pricing".
Proof.
  exists (field_of "pricing" CT_json false false).
  split; [right; right; left; reflexivity | split; reflexivity].
Qed.

Lemma size_is_no_json_field : ~ has_field_of_kind shirt_model CT_json "size".
Proof.
  intros (f & [<- | [<- | [<- | [<- | []]]]] & Hname & Hkind);
    discriminate.
Qed.

(** A [Set] on the set field is bound as its members joined by commas, a
    value of the json field as its JSON text, in [create] and in
    [updateWhere] alike. *)
Lemma update_encodes_like_create_witness :
  insertValue stringify shirt_model "size" (VSet ["lg"; "xl"])
  = inr [Bound (VString "lg,xl")]
  /\ updateAssignment bt stringify shirt_model "size" (VSet ["lg"; "xl"])
     = inr [Raw "`tee_shirt`.`size`"; Raw " = "; Bound (VString "lg,xl")]
  /\ insertValue stringify shirt_model "pricing" (VNumber 7)
     = inr [Bound (VString "7")]
  /\ updateAssignment bt stringify shirt_model "pricing" (VNumber 7)
     = inr [Raw "`tee_shirt`.`pricing`"; Raw " = "; Bound (VString "7")].
Proof.
  destruct (update_encodes_like_create bt stringify shirt_model "size"
              (VSet ["lg"; "xl"])) as (_ & _ & Hset & _).
  destruct (update_encodes_like_create bt stringify shirt_model "pricing"
              (VNumber 7)) as (_ & Hjson & _).
  destruct (Hset size_is_no_json_field size_is_a_set_field ["lg"; "xl"]
              eq_refl) as [H1 H2].
  assert (Hv : VNumber 7 <> VNull) by discriminate.
  destruct (proj1 (Hjson Hv pricing_is_a_json_field) (VString "7") eq_refl)
    as [H3 H4].
  split; [exact H1|]. split; [exact H2|]. split; [exact H3 | exact H4].
Defined.

Lemma insert_binds_non_null_values_witness :
  List.length
    (sql_values
       (insertQuery bt user_model
          (List.map (fun kv => bt [Api.tableName user_model; fst kv])
             [("name", VString "Ann"); ("nick", VNull)])
          [[Bound (VString "Ann")]; raw "NULL"]))
  = 1%nat.
Proof.
  exact (insert_binds_non_null_values bt JSON_stringify user_model
           [("name", VString "Ann"); ("nick", VNull)]
           [[Bound (VString "Ann")]; raw "NULL"]
           (fun names => eq_refl) eq_refl).
Defined.

Lemma where_failure_passes_through_witness :
  count nat (conn_returning inserted) now unit bt
    (fun _ _ => inl (ErrorObj "Invalid where")) gt_max_safe_other
    Number_other no_logging user_model None start
  = (start, inl (ErrorObj "Invalid where")).
Proof.
  exact (proj1 (proj2 (proj2
           (where_failure_passes_through nat (conn_returning inserted) now
              unit unit bt (fun _ _ => inl (ErrorObj "Invalid where"))
              getOrderBy getLimitOffset gt_max_safe_other Number_other
              join_refuses no_logging user_model None
              (ErrorObj "Invalid where") start eq_refl)))).
Defined.

Lemma empty_data_update_and_create_witness :
  updateWhere nat (conn_returning inserted) now unit bt getWhere
    JSON_stringify no_logging user_model join_refuses [] None start
  = (start,
     inl (ErrorObj "Expected `join([])` to be called with an array of multiple elements, but got an empty array")).
Proof.
  exact (proj1
           (empty_data_update_and_create nat (conn_returning inserted) now
              unit bt getWhere JSON_stringify join_refuses no_logging
              user_model None _ start eq_refl)).
Defined.

Lemma string_literals_are_quoted_witness :
  exists q body,
    (q = ParseModel.double_quote \/ q = ParseModel.single_quote)
    /\ "'b'" = String q (body +:+ String q "").
Proof.
  apply (string_literals_are_quoted "enum('a','b')" "'b'").
  right. left. reflexivity.
Defined.

End MoreRuns.
